(** * zoxios: the chainable validated request maker

    A shallow embedding of [validatedRequestMaker] (the builder), of
    [execRequest], [validateRequestItem] and [handleValidatedResponse] (the
    execution engine and the validation pipeline) and of the default
    validation-error handlers, followed by the properties claimed about them.

    Modelling choices, all read off the TypeScript source:
    - a JavaScript object that the code builds, spreads or assigns into (the
      request options, the asynchronous options, a transport response) is a
      [gmap string value]: a key may be absent, or present and [undefined];
    - those objects live in a heap addressed by references, because the
      builder keeps [baseOptions] as a mutable binding to an object that four
      chain calls assign into and that [options] rebinds to a fresh object;
    - [async] code runs sequentially in a state-and-exception monad whose
      state is the heap, the state of the outside world and the trace of the
      calls that reach a collaborator;
    - payloads (query, body, response, issues) are immutable value trees: the
      code never looks inside them, it only hands them to schemas, to the
      transport and to [JSON.stringify]; a payload that is not a finite tree
      (an object that contains itself) is kept as one opaque value. *)

From stdpp Require Import gmap strings list pretty.

Set Warnings "-register-all".

(** ** JavaScript values *)

Inductive value : Type :=
| VUndefined
| VNull
| VBool (b : bool)
| VNumber (n : Z)
| VBigInt (n : Z)
| VString (s : string)
| VArray (items : list value)
| VObject (fields : list (string * value))
| VCyclicObject.

(** The text of a value inside a template literal or on the left of [+=]
    with a string on the right (ECMAScript ToString; numbers are integers
    here, plain objects print as their tag, array elements are joined by
    commas with [null] and [undefined] printing as nothing). *)
Fixpoint ToString (v : value) : string :=
  match v with
  | VUndefined => "undefined"
  | VNull => "null"
  | VBool true => "true"
  | VBool false => "false"
  | VNumber n => pretty n
  | VBigInt n => pretty n
  | VString s => s
  | VArray items =>
      let element (x : value) : string :=
        match x with
        | VUndefined | VNull => ""
        | _ => ToString x
        end in
      (fix join (l : list value) : string :=
         match l with
         | [] => ""
         | [x] => element x
         | x :: rest => element x +:+ "," +:+ join rest
         end) items
  | VObject _ => "[object Object]"
  | VCyclicObject => "[object Object]"
  end.

(** The values that [JSON.stringify] accepts: it raises a [TypeError] on a
    BigInt and on a structure that contains itself, wherever they sit inside
    the value; [undefined] is accepted (the result is [undefined]). *)
Fixpoint serializable (v : value) : bool :=
  match v with
  | VBigInt _ | VCyclicObject => false
  | VArray items =>
      (fix all (l : list value) : bool :=
         match l with
         | [] => true
         | x :: rest => serializable x && all rest
         end) items
  | VObject fields =>
      (fix all (l : list (string * value)) : bool :=
         match l with
         | [] => true
         | (_, x) :: rest => serializable x && all rest
         end) fields
  | _ => true
  end.

(** [o.k]: reading a property that is missing yields [undefined]. *)
Definition prop (o : gmap string value) (k : string) : value :=
  default VUndefined (o !! k).

(** [{ ...a, ...b }]: every key of [b] wins over the same key of [a]. *)
Definition spread (a b : gmap string value) : gmap string value := b ∪ a.

(** ** The schema collaborator (zod) *)

Record ZodError : Type := { issues : list value }.

Inductive SafeParseReturn : Type :=
| ParseSuccess (data : value)
| ParseFailure (error : ZodError).

Record ZodSchema : Type := { safeParse : value → SafeParseReturn }.

(** ** The error model *)

(** References to heap-allocated option objects. *)
Abbreviation loc := nat (only parsing).

(** Modelled from the spec: the metadata type of a request-validation error,
    declared in [./validated-request.errors], which the sources only import:
    [{ requestOptions, request }], the options (by reference, as the engine
    passes them) and the rejected query or body. *)
Record RequestValidationErrorMetadata : Type := {
  request_requestOptions : loc;
  request : value;
}.

(** Modelled from the spec: the metadata type of a response-validation
    error, declared in the same absent file: [{ requestOptions, response }],
    the options and the raw rejected response. *)
Record ResponseValidationErrorMetadata : Type := {
  response_requestOptions : loc;
  response : value;
}.

(** Modelled from the spec: the class [RequestValidationError] of
    [./validated-request.errors], which the sources only import. It keeps
    the two constructor arguments, the schema engine's error and the
    metadata, under the property names that [defaultHandleValidationError]
    reads ([zodError], [metadata]). *)
Record RequestValidationError : Type := {
  request_zodError : ZodError;
  request_metadata : RequestValidationErrorMetadata;
}.

(** Modelled from the spec: the class [ResponseValidationError] of the same
    absent file, with the same two constructor arguments. *)
Record ResponseValidationError : Type := {
  response_zodError : ZodError;
  response_metadata : ResponseValidationErrorMetadata;
}.

(** What a [throw] or a rejected promise carries. [instanceof] is the match
    on the constructor; anything that is neither class is [ThrowOther]. *)
Inductive thrown : Type :=
| ThrowRequestValidationError (error : RequestValidationError)
| ThrowResponseValidationError (error : ResponseValidationError)
| ThrowOther (reason : value).

Inductive Result (A : Type) : Type :=
| Ok (a : A)
| Throw (t : thrown).
Arguments Ok {A} a.
Arguments Throw {A} t.

Inductive ErrorKind : Type := RequestKind | ResponseKind.

(** ** The platform: transport, runtime and the outside world

    [Env] is the state of everything outside the builder (servers, token
    stores, clocks). [axios] is the transport: it receives the request
    options and resolves to a response object or rejects. [JSON_stringify]
    gives the text that [JSON.stringify(v)] contributes to a template
    literal when [v] is serializable, and [JSON_TypeError] the [TypeError]
    that the call raises when it is not; [error_name] and [error_message]
    give the [name] and [message] properties of the two error classes, whose
    declaration is not part of the sources. *)
Class Platform : Type := {
  Env : Type;
  axios : gmap string value → Env → Result (gmap string value) * Env;
  JSON_stringify : value → string;
  JSON_TypeError : value → value;
  error_name : ErrorKind → string;
  error_message : ErrorKind → ZodError → string;
}.

(** [AsyncOptionsSetterMethod]: caller code that resolves to a partial
    options object, or rejects, and may change the outside world. *)
Definition AsyncOptionsSetterMethod `{Platform} : Type :=
  Env → Result (gmap string value) * Env.

(** The calls that leave the builder, in the order they are made: to the
    asynchronous option setter, to a schema's [safeParse] (with the value
    submitted), to the transport (with the options it receives) and to
    [console.error]. *)
Inductive event : Type :=
| EvAsyncOptionsSetter
| EvSafeParse (input : value)
| EvAxios (requestOptions : gmap string value)
| EvConsoleError (message : string).

Section Model.
Context `{platform : Platform}.

Record World : Type := {
  heap : list (gmap string value);
  env : Env;
  trace : list event;
}.

Definition with_heap (h : list (gmap string value)) (w : World) : World :=
  {| heap := h; env := env w; trace := trace w |}.

Definition with_events (es : list event) (w : World) : World :=
  {| heap := heap w; env := env w; trace := trace w ++ es |}.

Definition with_event (e : event) (w : World) : World := with_events [e] w.

(** *** The execution monad *)

Definition M (A : Type) : Type := World → Result A * World.

Definition ret {A} (a : A) : M A := λ w, (Ok a, w).

Definition throw {A} (t : thrown) : M A := λ w, (Throw t, w).

Definition bind {A B} (m : M A) (k : A → M B) : M B :=
  λ w, match m w with
       | (Ok a, w') => k a w'
       | (Throw t, w') => (Throw t, w')
       end.

(** [promise.catch(handler)] *)
Definition catch {A} (m : M A) (handler : thrown → M A) : M A :=
  λ w, match m w with
       | (Ok a, w') => (Ok a, w')
       | (Throw t, w') => handler t w'
       end.

(** Object creation: the new object gets the next free reference. *)
Definition new_object (o : gmap string value) (w : World) : loc * World :=
  (length (heap w), with_heap (heap w ++ [o]) w).

(** The object behind a reference. *)
Definition read (l : loc) (w : World) : gmap string value :=
  default ∅ (heap w !! l).

(** [l.k = v]: assignment into the object behind [l], visible through
    every copy of the reference. *)
Definition write (l : loc) (k : string) (v : value) (w : World) : World :=
  with_heap (alter (<[k := v]>) l (heap w)) w.

Definition alloc (o : gmap string value) : M loc :=
  λ w, let '(l, w') := new_object o w in (Ok l, w').

Definition deref (l : loc) : M (gmap string value) :=
  λ w, (Ok (read l w), w).

Definition assign (l : loc) (k : string) (v : value) : M unit :=
  λ w, (Ok tt, write l k v w).

(** [await setter()] *)
Definition await_setter (setter : AsyncOptionsSetterMethod)
  : M (gmap string value) :=
  λ w, let '(r, e) := setter (env w) in
       (r, {| heap := heap w; env := e;
              trace := trace w ++ [EvAsyncOptionsSetter] |}).

(** [await axios(l)]: the transport sees the object as it is at the call. *)
Definition await_axios (l : loc) : M (gmap string value) :=
  λ w, let o := read l w in
       let '(r, e) := axios o (env w) in
       (r, {| heap := heap w; env := e; trace := trace w ++ [EvAxios o] |}).

Definition console_error (message : string) : M unit :=
  λ w, (Ok tt, with_event (EvConsoleError message) w).

(** [JSON.stringify(v)] inside a template literal: the text, or the
    [TypeError] raised on a value that cannot be serialized. *)
Definition stringify (v : value) : M string :=
  if serializable v then ret (JSON_stringify v)
  else throw (ThrowOther (JSON_TypeError v)).

(** [schema.safeParse(v)]: never raises. *)
Definition call_safeParse (schema : ZodSchema) (v : value)
  : M SafeParseReturn :=
  λ w, (Ok (safeParse schema v), with_event (EvSafeParse v) w).

End Model.

Notation "'let*' x ':=' m 'in' k" := (bind m (λ x, k))
  (at level 10, x binder, m at level 100, k at level 200,
   format "'[v' 'let*'  x  ':='  m  'in' '/' k ']'").
Notation "m ';;' k" := (bind m (λ _, k))
  (at level 100, k at level 200, right associativity).

Section Engine.
Context `{platform : Platform}.

(** *** The validation pipeline *)

Definition validateRequestItem (baseOptions : loc) (requestItem : value)
    (schema : option ZodSchema) : M value :=
  match schema with
  | None => ret requestItem
  | Some schema =>
      let* parseResponse := call_safeParse schema requestItem in
      match parseResponse with
      | ParseFailure error =>
          throw (ThrowRequestValidationError
                   {| request_zodError := error;
                      request_metadata :=
                        {| request_requestOptions := baseOptions;
                           request := requestItem |} |})
      | ParseSuccess data => ret data
      end
  end.

Definition handleValidatedResponse (baseOptions : loc) (response : value)
    (schema : option ZodSchema) : M value :=
  match schema with
  | None => ret response
  | Some schema =>
      let* parseResponse := call_safeParse schema response in
      match parseResponse with
      | ParseFailure error =>
          throw (ThrowResponseValidationError
                   {| response_zodError := error;
                      response_metadata :=
                        {| response_requestOptions := baseOptions;
                           response := response |} |})
      | ParseSuccess data => ret data
      end
  end.

(** *** The execution engine *)

Record Schemas : Type := {
  schemas_query : option ZodSchema;
  schemas_body : option ZodSchema;
  schemas_response : option ZodSchema;
}.

(** The part of [execRequest] that runs once the asynchronous options are
    known: merge, validate query then body, call the transport, validate
    the response. *)
Definition execRequest_resume (baseOptions : loc)
    (asyncOptions : gmap string value) (schemas : option Schemas) : M value :=
  let* base := deref baseOptions in
  let* requestOptions := alloc (spread base asyncOptions) in
  let* current := deref requestOptions in
  let* params := validateRequestItem requestOptions
                    (prop current "params") (schemas ≫= schemas_query) in
  assign requestOptions "params" params;;
  let* current := deref requestOptions in
  let* data := validateRequestItem requestOptions
                  (prop current "data") (schemas ≫= schemas_body) in
  assign requestOptions "data" data;;
  let* response := await_axios requestOptions in
  handleValidatedResponse requestOptions (prop response "data")
    (schemas ≫= schemas_response).

(** [asyncOptionsSetterMethod ? await asyncOptionsSetterMethod() : {}] *)
Definition resolve_asyncOptions
    (asyncOptionsSetterMethod : option AsyncOptionsSetterMethod)
  : M (gmap string value) :=
  match asyncOptionsSetterMethod with
  | Some setter => await_setter setter
  | None => ret ∅
  end.

Definition execRequest (baseOptions : loc)
    (asyncOptionsSetterMethod : option AsyncOptionsSetterMethod)
    (schemas : option Schemas) : M value :=
  let* asyncOptions := resolve_asyncOptions asyncOptionsSetterMethod in
  execRequest_resume baseOptions asyncOptions schemas.

(** *** The default error handlers *)

Definition newline : string := String (Ascii.ascii_of_nat 10) "".

Definition error_kind (error : RequestValidationError + ResponseValidationError)
  : ErrorKind :=
  match error with inl _ => RequestKind | inr _ => ResponseKind end.

Definition error_zodError
    (error : RequestValidationError + ResponseValidationError) : ZodError :=
  match error with
  | inl e => request_zodError e
  | inr e => response_zodError e
  end.

Definition error_requestOptions
    (error : RequestValidationError + ResponseValidationError) : loc :=
  match error with
  | inl e => request_requestOptions (request_metadata e)
  | inr e => response_requestOptions (response_metadata e)
  end.

Definition rethrow
    (error : RequestValidationError + ResponseValidationError) : thrown :=
  match error with
  | inl e => ThrowRequestValidationError e
  | inr e => ThrowResponseValidationError e
  end.

(** The text handed to [console.error], given the three texts that
    [JSON.stringify] produced for the body, the query and the issues. *)
Definition diagnostic
    (error : RequestValidationError + ResponseValidationError)
    (requestOptions : gmap string value)
    (body params issues : string) : string :=
  "zoxios - [" +:+ error_name (error_kind error) +:+ "] - "
    +:+ error_message (error_kind error) (error_zodError error) +:+ newline
  +:+ "    timeout: " +:+ ToString (prop requestOptions "timeout") +:+ newline
  +:+ "    method: " +:+ ToString (prop requestOptions "method") +:+ newline
  +:+ "    url: " +:+ ToString (prop requestOptions "url") +:+ newline
  +:+ newline
  +:+ "    body:" +:+ newline
  +:+ "    " +:+ body +:+ newline
  +:+ newline
  +:+ "    query params:" +:+ newline
  +:+ "    " +:+ params +:+ newline
  +:+ newline
  +:+ "    issues:" +:+ newline
  +:+ "    " +:+ issues.

(** The template literal is evaluated before [console.error] is called:
    the three [JSON.stringify] calls run in the order body, query, issues,
    and the first that raises ends the handler there, before anything is
    logged and before [throw error]. *)
Definition defaultHandleValidationError
    (error : RequestValidationError + ResponseValidationError) : M value :=
  let* requestOptions := deref (error_requestOptions error) in
  let* body := stringify (prop requestOptions "data") in
  let* params := stringify (prop requestOptions "params") in
  let* issues := stringify (VArray (issues (error_zodError error))) in
  console_error (diagnostic error requestOptions body params issues);;
  throw (rethrow error).

Definition defaultRequestValidationHandler (error : RequestValidationError)
  : M value :=
  defaultHandleValidationError (inl error).

Definition defaultResponseValidationHandler (error : ResponseValidationError)
  : M value :=
  defaultHandleValidationError (inr error).

(** *** The builder's closure

    The [let] bindings that [validatedRequestMaker] declares and that the
    methods of [requestMaker] close over. [baseOptions] is a reference: an
    assignment through it changes the object, a rebinding changes which
    object the builder uses. *)
Record Closure : Type := {
  baseOptions : loc;
  asyncOptionsSetterMethod : option AsyncOptionsSetterMethod;
  querySchema : option ZodSchema;
  bodySchema : option ZodSchema;
  responseSchema : option ZodSchema;
  requestValidationErrorHandler : RequestValidationError → M value;
  responseValidationErrorHandler : ResponseValidationError → M value;
}.

Definition set_baseOptions (l : loc) (c : Closure) : Closure :=
  {| baseOptions := l;
     asyncOptionsSetterMethod := asyncOptionsSetterMethod c;
     querySchema := querySchema c;
     bodySchema := bodySchema c;
     responseSchema := responseSchema c;
     requestValidationErrorHandler := requestValidationErrorHandler c;
     responseValidationErrorHandler := responseValidationErrorHandler c |}.

Definition set_asyncOptionsSetterMethod
    (setter : AsyncOptionsSetterMethod) (c : Closure) : Closure :=
  {| baseOptions := baseOptions c;
     asyncOptionsSetterMethod := Some setter;
     querySchema := querySchema c;
     bodySchema := bodySchema c;
     responseSchema := responseSchema c;
     requestValidationErrorHandler := requestValidationErrorHandler c;
     responseValidationErrorHandler := responseValidationErrorHandler c |}.

Definition set_querySchema (schema : ZodSchema) (c : Closure) : Closure :=
  {| baseOptions := baseOptions c;
     asyncOptionsSetterMethod := asyncOptionsSetterMethod c;
     querySchema := Some schema;
     bodySchema := bodySchema c;
     responseSchema := responseSchema c;
     requestValidationErrorHandler := requestValidationErrorHandler c;
     responseValidationErrorHandler := responseValidationErrorHandler c |}.

Definition set_bodySchema (schema : ZodSchema) (c : Closure) : Closure :=
  {| baseOptions := baseOptions c;
     asyncOptionsSetterMethod := asyncOptionsSetterMethod c;
     querySchema := querySchema c;
     bodySchema := Some schema;
     responseSchema := responseSchema c;
     requestValidationErrorHandler := requestValidationErrorHandler c;
     responseValidationErrorHandler := responseValidationErrorHandler c |}.

Definition set_responseSchema (schema : ZodSchema) (c : Closure) : Closure :=
  {| baseOptions := baseOptions c;
     asyncOptionsSetterMethod := asyncOptionsSetterMethod c;
     querySchema := querySchema c;
     bodySchema := bodySchema c;
     responseSchema := Some schema;
     requestValidationErrorHandler := requestValidationErrorHandler c;
     responseValidationErrorHandler := responseValidationErrorHandler c |}.

Definition set_requestValidationErrorHandler
    (handler : RequestValidationError → M value) (c : Closure) : Closure :=
  {| baseOptions := baseOptions c;
     asyncOptionsSetterMethod := asyncOptionsSetterMethod c;
     querySchema := querySchema c;
     bodySchema := bodySchema c;
     responseSchema := responseSchema c;
     requestValidationErrorHandler := handler;
     responseValidationErrorHandler := responseValidationErrorHandler c |}.

Definition set_responseValidationErrorHandler
    (handler : ResponseValidationError → M value) (c : Closure) : Closure :=
  {| baseOptions := baseOptions c;
     asyncOptionsSetterMethod := asyncOptionsSetterMethod c;
     querySchema := querySchema c;
     bodySchema := bodySchema c;
     responseSchema := responseSchema c;
     requestValidationErrorHandler := requestValidationErrorHandler c;
     responseValidationErrorHandler := handler |}.

End Engine.

(** ** The builder

    A chain call takes the closure and the world and gives back both; it
    cannot throw. [exec] runs in the execution monad and leaves the closure
    as it is (it assigns to none of the bindings). *)
Module requestMaker.
Section Methods.
Context `{platform : Platform}.

Definition exec (c : Closure) : M value :=
  catch
    (execRequest (baseOptions c) (asyncOptionsSetterMethod c)
       (Some {| schemas_body := bodySchema c;
                schemas_query := querySchema c;
                schemas_response := responseSchema c |}))
    (λ error,
       match error with
       | ThrowRequestValidationError e => requestValidationErrorHandler c e
       | ThrowResponseValidationError e => responseValidationErrorHandler c e
       | _ => throw error
       end).

Definition asyncOptionsSetter (optionsSetter : AsyncOptionsSetterMethod)
    (c : Closure) (w : World) : Closure * World :=
  (set_asyncOptionsSetterMethod optionsSetter c, w).

Definition handleRequestValidationError
    (handler : RequestValidationError → M value)
    (c : Closure) (w : World) : Closure * World :=
  (set_requestValidationErrorHandler handler c, w).

Definition handleResponseValidationError
    (handler : ResponseValidationError → M value)
    (c : Closure) (w : World) : Closure * World :=
  (set_responseValidationErrorHandler handler c, w).

(** [baseOptions = { ...baseOptions, ...options }]: a new object, and the
    binding moves to it. *)
Definition options (options : gmap string value)
    (c : Closure) (w : World) : Closure * World :=
  let '(l, w') := new_object (spread (read (baseOptions c) w) options) w in
  (set_baseOptions l c, w').

(** [baseOptions.url += `/${path}`] *)
Definition concatPath (path : string)
    (c : Closure) (w : World) : Closure * World :=
  (c, write (baseOptions c) "url"
        (VString (ToString (prop (read (baseOptions c) w) "url")
                  +:+ "/" +:+ path)) w).

Definition method (method : string)
    (c : Closure) (w : World) : Closure * World :=
  (c, write (baseOptions c) "method" (VString method) w).

Definition query (query : value)
    (c : Closure) (w : World) : Closure * World :=
  (c, write (baseOptions c) "params" query w).

Definition body (body : value)
    (c : Closure) (w : World) : Closure * World :=
  (c, write (baseOptions c) "data" body w).

Definition querySchema (schema : ZodSchema)
    (c : Closure) (w : World) : Closure * World :=
  (set_querySchema schema c, w).

Definition bodySchema (schema : ZodSchema)
    (c : Closure) (w : World) : Closure * World :=
  (set_bodySchema schema c, w).

Definition responseSchema (schema : ZodSchema)
    (c : Closure) (w : World) : Closure * World :=
  (set_responseSchema schema c, w).

End Methods.
End requestMaker.

Section Maker.
Context `{platform : Platform}.

(** [validatedRequestMaker(host)]: a fresh [{ url: host }], no setter, no
    schema, the default handlers. *)
Definition validatedRequestMaker (host : string) (w : World)
  : Closure * World :=
  let '(l, w') := new_object {[ "url" := VString host ]} w in
  ({| baseOptions := l;
      asyncOptionsSetterMethod := None;
      querySchema := None;
      bodySchema := None;
      responseSchema := None;
      requestValidationErrorHandler := defaultRequestValidationHandler;
      responseValidationErrorHandler := defaultResponseValidationHandler |},
   w').

(** A chain [b.m1(..).m2(..)]: each call acts on what the previous left. *)
Definition chain (b : World → Closure * World)
    (call : Closure → World → Closure * World) (w : World)
  : Closure * World :=
  let '(c, w') := b w in call c w'.

(** A world in which nothing has happened yet. *)
Definition initial (e : Env) : World :=
  {| heap := []; env := e; trace := [] |}.

End Maker.

Notation "b '|>' call" := (chain b call) (at level 50, left associativity).

(** ** Test doubles

    A transport, a runtime and three zod object schemas, used to run the
    model on concrete requests. *)
Module Fixtures.

Inductive ztype : Type := ZNumber | ZString.

Definition ztype_accepts (t : ztype) (v : value) : bool :=
  match t, v with
  | ZNumber, VNumber _ => true
  | ZString, VString _ => true
  | _, _ => false
  end.

Fixpoint field (k : string) (fields : list (string * value)) : value :=
  match fields with
  | [] => VUndefined
  | (k', v) :: rest => if decide (k = k') then v else field k rest
  end.

Definition invalid_type (path : list value) : value :=
  VObject [("code", VString "invalid_type"); ("path", VArray path)].

(** [z.object(shape)]: every key of the shape must hold a value of its
    type; the output keeps the keys of the shape and drops the others. *)
Definition z_object (shape : list (string * ztype)) : ZodSchema :=
  {| safeParse v :=
       match v with
       | VObject fields =>
           let bad :=
             filter (λ kt, ztype_accepts kt.2 (field kt.1 fields) = false)
                    shape in
           match bad with
           | [] => ParseSuccess
                     (VObject (map (λ kt, (kt.1, field kt.1 fields)) shape))
           | _ => ParseFailure
                    {| issues :=
                         map (λ kt, invalid_type [VString kt.1]) bad |}
           end
       | _ => ParseFailure {| issues := [invalid_type []] |}
       end |}.

Definition age_number : ZodSchema := z_object [("age", ZNumber)].
Definition name_string : ZodSchema := z_object [("name", ZString)].
Definition id_number : ZodSchema := z_object [("id", ZNumber)].

(** The outside world is the number of requests the server has answered;
    the server answers every request with [{ id: 1, etag: "e" }]. *)
Definition server : Platform :=
  {| Env := nat;
     axios := λ _ served,
       (Ok {[ "status" := VNumber 200;
              "data" := VObject [("id", VNumber 1); ("etag", VString "e")] ]},
        S served);
     JSON_stringify := λ v, match v with VUndefined => "undefined"
                                    | _ => "<json>" end;
     JSON_TypeError := λ _, VString "TypeError";
     error_name := λ k, match k with
                        | RequestKind => "RequestValidationError"
                        | ResponseKind => "ResponseValidationError"
                        end;
     error_message := λ _ _, "invalid" |}.

End Fixtures.

(** ** Observations on a trace *)

(** The request options handed to the transport, in call order. *)
Fixpoint transport_calls (t : list event) : list (gmap string value) :=
  match t with
  | [] => []
  | EvAxios o :: rest => o :: transport_calls rest
  | _ :: rest => transport_calls rest
  end.

(** The values submitted to a schema, in call order. *)
Fixpoint parsed_values (t : list event) : list value :=
  match t with
  | [] => []
  | EvSafeParse v :: rest => v :: parsed_values rest
  | _ :: rest => parsed_values rest
  end.

(** How often the asynchronous option setter ran. *)
Fixpoint setter_calls (t : list event) : nat :=
  match t with
  | [] => 0
  | EvAsyncOptionsSetter :: rest => S (setter_calls rest)
  | _ :: rest => setter_calls rest
  end.

Section Vocabulary.
Context `{platform : Platform}.

(** The Request Description of a builder: the object its [baseOptions]
    binding refers to. *)
Definition description (c : Closure) (w : World) : gmap string value :=
  read (baseOptions c) w.

(** The binding refers to an object that exists. *)
Definition allocated (c : Closure) (w : World) : Prop :=
  baseOptions c < length (heap w).

(** The [safeParse] calls one validation makes. *)
Definition parse_events (schema : option ZodSchema) (v : value)
  : list event :=
  match schema with
  | None => []
  | Some _ => [EvSafeParse v]
  end.

(** What one request validation yields. *)
Definition request_outcome (requestOptions : loc) (v : value)
    (schema : option ZodSchema) : Result value :=
  match schema with
  | None => Ok v
  | Some schema =>
      match safeParse schema v with
      | ParseSuccess data => Ok data
      | ParseFailure error =>
          Throw (ThrowRequestValidationError
                   {| request_zodError := error;
                      request_metadata :=
                        {| request_requestOptions := requestOptions;
                           request := v |} |})
      end
  end.

(** What the response validation yields. *)
Definition response_outcome (requestOptions : loc) (v : value)
    (schema : option ZodSchema) : Result value :=
  match schema with
  | None => Ok v
  | Some schema =>
      match safeParse schema v with
      | ParseSuccess data => Ok data
      | ParseFailure error =>
          Throw (ThrowResponseValidationError
                   {| response_zodError := error;
                      response_metadata :=
                        {| response_requestOptions := requestOptions;
                           response := v |} |})
      end
  end.

(** The engine's call on behalf of a builder, as [exec] makes it. *)
Definition engine (c : Closure) : M value :=
  execRequest (baseOptions c) (asyncOptionsSetterMethod c)
    (Some {| schemas_body := bodySchema c;
             schemas_query := querySchema c;
             schemas_response := responseSchema c |}).

(** A handler that only reports: it may write to the console and return or
    raise what it likes, but it creates no object, assigns into none and
    calls no collaborator. *)
Definition quiet {E} (handler : E → M value) : Prop :=
  ∀ e w, ∃ messages,
    (handler e w).2 = with_events (map EvConsoleError messages) w.

(** [n] successive [exec] calls on one builder. *)
Fixpoint exec_times (n : nat) (c : Closure) (w : World) : World :=
  match n with
  | 0 => w
  | S n => exec_times n c (requestMaker.exec c w).2
  end.

(** [b.concatPath(s1)...concatPath(sn)] *)
Definition concatPaths (segments : list string)
    (b : World → Closure * World) : World → Closure * World :=
  fold_left (λ b segment, b |> requestMaker.concatPath segment) segments b.

(** The url that [segments] build on top of [url]. *)
Definition joined (url : string) (segments : list string) : string :=
  fold_left (λ url segment, url +:+ "/" +:+ segment) segments url.

(** Every key that the description and the asynchronous result both
    define reaches the transport with the asynchronous value. *)
Definition async_value_reaches_transport (c : Closure) (w : World) : Prop :=
  ∀ asyncOptions w1 k static resolved sent,
    resolve_asyncOptions (asyncOptionsSetterMethod c) w
      = (Ok asyncOptions, w1) →
    description c w !! k = Some static →
    asyncOptions !! k = Some resolved →
    transport_calls (trace (engine c w).2) = transport_calls (trace w) ++ [sent] →
    sent !! k = Some resolved.

(** The five chain calls that configure the Request Description. *)
Inductive call : Type :=
| ConcatPath (path : string)
| Method (method : string)
| Options (options : gmap string value)
| Query (query : value)
| Body (body : value).

Definition run_call (k : call) : Closure → World → Closure * World :=
  match k with
  | ConcatPath path => requestMaker.concatPath path
  | Method method => requestMaker.method method
  | Options options => requestMaker.options options
  | Query query => requestMaker.query query
  | Body body => requestMaker.body body
  end.

(** [b.k1(..).k2(..)...] *)
Definition run_calls (ks : list call) (b : World → Closure * World)
  : World → Closure * World :=
  fold_left (λ b k, b |> run_call k) ks b.

(** What a call makes of the description it finds. *)
Definition effect (k : call) (d : gmap string value) : gmap string value :=
  match k with
  | ConcatPath path =>
      <["url" := VString (ToString (prop d "url") +:+ "/" +:+ path)]> d
  | Method method => <["method" := VString method]> d
  | Options options => spread d options
  | Query query => <["params" := query]> d
  | Body body => <["data" := body]> d
  end.

(** A call acts in place when the builder goes on using the object it had
    and no object is created. *)
Definition in_place (run : Closure → World → Closure * World) : Prop :=
  ∀ c w, allocated c w →
         baseOptions (run c w).1 = baseOptions c
         ∧ length (heap (run c w).2) = length (heap w).

End Vocabulary.

(** ** Scenarios

    Builders and worlds on which the properties below are exercised. *)
Module Scenarios.
Import Fixtures.
#[local] Existing Instance server.

Definition start : World := initial 0.

Definition bad_query : value := VObject [("name", VNumber 7)].
Definition bad_body : value := VObject [("age", VString "x")].
Definition good_query : value :=
  VObject [("name", VString "n"); ("page", VNumber 2)].
Definition good_body : value :=
  VObject [("age", VNumber 30); ("nick", VString "k")].

(** A new builder. *)
Definition made : Closure * World := validatedRequestMaker "http://h" start.

Definition with_timeout : gmap string value := {[ "timeout" := VNumber 5 ]}.

(** Query and body both break their schemas. *)
Definition both_invalid : World → Closure * World :=
  validatedRequestMaker "http://h"
  |> requestMaker.querySchema name_string
  |> requestMaker.bodySchema age_number
  |> requestMaker.query bad_query
  |> requestMaker.body bad_body.

(** The same builder with a request-validation handler that swallows the
    error and answers with a fallback value. *)
Definition fallback : value := VString "fallback".

Definition both_invalid_swallowed : World → Closure * World :=
  both_invalid |> requestMaker.handleRequestValidationError (λ _, ret fallback).

Definition static_query : value := VObject [("name", VString "s")].

(** What the option setter resolves to. *)
Definition resolved : gmap string value :=
  {[ "params" := good_query;
     "timeout" := VNumber 9;
     "headers" := VObject [("Authorization", VString "Bearer t")] ]}.

Definition token_setter : AsyncOptionsSetterMethod :=
  λ served, (Ok resolved, served).

(** A builder whose static description and asynchronous options both
    define [timeout] and [params], with a schema on the query. *)
Definition overlapping : World → Closure * World :=
  validatedRequestMaker "http://h"
  |> requestMaker.options with_timeout
  |> requestMaker.querySchema name_string
  |> requestMaker.query static_query
  |> requestMaker.asyncOptionsSetter token_setter.

(** Query, body and response are checked, and all three are valid. *)
Definition all_checked : World → Closure * World :=
  validatedRequestMaker "http://h"
  |> requestMaker.querySchema name_string
  |> requestMaker.bodySchema age_number
  |> requestMaker.responseSchema id_number
  |> requestMaker.query good_query
  |> requestMaker.body good_body.

(** Nothing is checked. *)
Definition unchecked : World → Closure * World :=
  validatedRequestMaker "http://h"
  |> requestMaker.query good_query
  |> requestMaker.body good_body.

(** The query is valid, the body is not. *)
Definition body_invalid : World → Closure * World :=
  validatedRequestMaker "http://h"
  |> requestMaker.querySchema name_string
  |> requestMaker.bodySchema age_number
  |> requestMaker.query good_query
  |> requestMaker.body bad_body.

(** The response is checked against a schema it breaks. *)
Definition response_invalid : World → Closure * World :=
  validatedRequestMaker "http://h"
  |> requestMaker.responseSchema name_string.

(** Calls made one after the other on a new builder. *)
Definition configured : list call :=
  [ Method "GET";
    Options {[ "method" := VString "POST"; "timeout" := VNumber 5 ]};
    ConcatPath "a";
    Method "PUT";
    ConcatPath "b" ].

End Scenarios.

(** ** Further vocabulary *)

(** The texts written to the console, in order. *)
Fixpoint console_messages (t : list event) : list string :=
  match t with
  | [] => []
  | EvConsoleError message :: rest => message :: console_messages rest
  | _ :: rest => console_messages rest
  end.

Section Settings.
Context `{platform : Platform}.

(** The six chain calls that fill a slot of the closure. *)
Inductive setting : Type :=
| SetAsyncOptionsSetter (optionsSetter : AsyncOptionsSetterMethod)
| SetRequestHandler (handler : RequestValidationError → M value)
| SetResponseHandler (handler : ResponseValidationError → M value)
| SetQuerySchema (schema : ZodSchema)
| SetBodySchema (schema : ZodSchema)
| SetResponseSchema (schema : ZodSchema).

Definition run_setting (s : setting) : Closure → World → Closure * World :=
  match s with
  | SetAsyncOptionsSetter optionsSetter =>
      requestMaker.asyncOptionsSetter optionsSetter
  | SetRequestHandler handler =>
      requestMaker.handleRequestValidationError handler
  | SetResponseHandler handler =>
      requestMaker.handleResponseValidationError handler
  | SetQuerySchema schema => requestMaker.querySchema schema
  | SetBodySchema schema => requestMaker.bodySchema schema
  | SetResponseSchema schema => requestMaker.responseSchema schema
  end.

Inductive slot : Type :=
| SetterSlot
| RequestHandlerSlot
| ResponseHandlerSlot
| QuerySchemaSlot
| BodySchemaSlot
| ResponseSchemaSlot.

Definition slot_of (s : setting) : slot :=
  match s with
  | SetAsyncOptionsSetter _ => SetterSlot
  | SetRequestHandler _ => RequestHandlerSlot
  | SetResponseHandler _ => ResponseHandlerSlot
  | SetQuerySchema _ => QuerySchemaSlot
  | SetBodySchema _ => BodySchemaSlot
  | SetResponseSchema _ => ResponseSchemaSlot
  end.

(** The keys of the description that a call assigns. *)
Definition touches (k : call) : gset string :=
  match k with
  | ConcatPath _ => {[ "url" ]}
  | Method _ => {[ "method" ]}
  | Options options => dom options
  | Query _ => {[ "params" ]}
  | Body _ => {[ "data" ]}
  end.

(** How many of the three schema slots are filled. *)
Definition schemas_present (c : Closure) : nat :=
  match querySchema c with Some _ => 1 | None => 0 end
  + match bodySchema c with Some _ => 1 | None => 0 end
  + match responseSchema c with Some _ => 1 | None => 0 end.

(** Any configuration call of the builder, and a chain of them. *)
Inductive step : Type :=
| Configure (k : call)
| Fill (s : setting).

Definition run_step (x : step) : Closure → World → Closure * World :=
  match x with
  | Configure k => run_call k
  | Fill s => run_setting s
  end.

Definition run_steps (xs : list step) (b : World → Closure * World)
  : World → Closure * World :=
  fold_left (λ b x, b |> run_step x) xs b.

(** What the [catch] callback of [exec] does with a raised error. *)
Definition dispatch (c : Closure) (t : thrown) : M value :=
  match t with
  | ThrowRequestValidationError e => requestValidationErrorHandler c e
  | ThrowResponseValidationError e => responseValidationErrorHandler c e
  | ThrowOther reason => throw (ThrowOther reason)
  end.

(** The first of the three values that the default handler serializes,
    in the order body, query, issues, that [JSON.stringify] refuses. *)
Definition unserializable
    (error : RequestValidationError + ResponseValidationError) (w : World)
  : option value :=
  let requestOptions := read (error_requestOptions error) w in
  let body := prop requestOptions "data" in
  let params := prop requestOptions "params" in
  let issues := VArray (issues (error_zodError error)) in
  if negb (serializable body) then Some body
  else if negb (serializable params) then Some params
  else if negb (serializable issues) then Some issues
  else None.

(** The diagnostic that the default handler writes when all three are
    serializable. *)
Definition report (error : RequestValidationError + ResponseValidationError)
    (w : World) : string :=
  let requestOptions := read (error_requestOptions error) w in
  diagnostic error requestOptions
    (JSON_stringify (prop requestOptions "data"))
    (JSON_stringify (prop requestOptions "params"))
    (JSON_stringify (VArray (issues (error_zodError error)))).

(** How the default handler ends: with the [TypeError] of the first value
    it cannot serialize and nothing logged, or else with one diagnostic
    logged and the error it was given. *)
Definition default_outcome
    (error : RequestValidationError + ResponseValidationError) (w : World)
  : Result value * World :=
  match unserializable error w with
  | Some v => (Throw (ThrowOther (JSON_TypeError v)), w)
  | None =>
      (Throw (rethrow error), with_event (EvConsoleError (report error w)) w)
  end.

(** A raised error seen as one of the two validation kinds, if it is one. *)
Definition validation_kind (t : thrown)
  : option (RequestValidationError + ResponseValidationError) :=
  match t with
  | ThrowRequestValidationError e => Some (inl e)
  | ThrowResponseValidationError e => Some (inr e)
  | ThrowOther _ => None
  end.

(** The calls that the validations and the transport call of one run make,
    given the final options and the outside world at the start: the query
    parse if the slot is filled; if the query passes, the body parse if the
    slot is filled; if the body passes, the transport call; if the transport
    resolves, the response parse if the slot is filled. *)
Definition expected_events (c : Closure) (requestOptions : loc)
    (final : gmap string value) (e : Env) : list event :=
  parse_events (querySchema c) (prop final "params")
  ++ match request_outcome requestOptions (prop final "params")
             (querySchema c) with
     | Throw _ => []
     | Ok params =>
         parse_events (bodySchema c) (prop final "data")
         ++ match request_outcome requestOptions (prop final "data")
                    (bodySchema c) with
            | Throw _ => []
            | Ok data =>
                let sent := <["data" := data]> (<["params" := params]> final) in
                EvAxios sent
                :: match axios sent e with
                   | (Ok received, _) =>
                       parse_events (responseSchema c) (prop received "data")
                   | (Throw _, _) => []
                   end
            end
     end.

(** What that run returns or raises: the first rejection, or else the
    transport's rejection, or else the verdict of the response schema. *)
Definition expected_result (c : Closure) (requestOptions : loc)
    (final : gmap string value) (e : Env) : Result value :=
  match request_outcome requestOptions (prop final "params")
          (querySchema c) with
  | Throw t => Throw t
  | Ok params =>
      match request_outcome requestOptions (prop final "data")
              (bodySchema c) with
      | Throw t => Throw t
      | Ok data =>
          match axios (<["data" := data]> (<["params" := params]> final)) e with
          | (Ok received, _) =>
              response_outcome requestOptions (prop received "data")
                (responseSchema c)
          | (Throw t, _) => Throw t
          end
      end
  end.

(** The events of the option setter's call. *)
Definition setter_events (c : Closure) : list event :=
  match asyncOptionsSetterMethod c with
  | Some _ => [EvAsyncOptionsSetter]
  | None => []
  end.

End Settings.

(** ** Further scenarios *)
Module Cases.
Import Fixtures.

(** A transport without a network: every request is refused. *)
Definition offline : Platform :=
  {| Env := nat;
     axios := λ _ attempts,
       (Throw (ThrowOther (VString "ECONNREFUSED")), S attempts);
     JSON_stringify := @JSON_stringify server;
     JSON_TypeError := @JSON_TypeError server;
     error_name := @error_name server;
     error_message := @error_message server |}.

Section Online.
#[local] Existing Instance server.

(** A setter that cannot get its token. *)
Definition failing_setter : AsyncOptionsSetterMethod :=
  λ served, (Throw (ThrowOther (VString "no token")), S served).

(** The builder whose query and body are invalid, with that setter. *)
Definition unauthorized : World → Closure * World :=
  Scenarios.both_invalid |> requestMaker.asyncOptionsSetter failing_setter.

(** Two builders made one after the other. *)
Definition first_made : Closure * World :=
  validatedRequestMaker "http://one" Scenarios.start.

Definition second_made : Closure * World :=
  validatedRequestMaker "http://two" first_made.2.

(** A query that its schema rejects and that [JSON.stringify] refuses. *)
Definition bigint_query : value := VObject [("name", VBigInt 10)].

Definition unprintable : World → Closure * World :=
  validatedRequestMaker "http://h"
  |> requestMaker.querySchema name_string
  |> requestMaker.query bigint_query.

(** A chain that sets schemas and payloads that break them. *)
Definition misconfigured : list step :=
  [ Fill (SetQuerySchema name_string);
    Configure (Query Scenarios.bad_query);
    Fill (SetBodySchema age_number);
    Configure (Body Scenarios.bad_body);
    Configure (ConcatPath "a") ].

End Online.

Section Offline.
#[local] Existing Instance offline.

Definition unreachable : World → Closure * World :=
  validatedRequestMaker "http://h"
  |> requestMaker.querySchema name_string
  |> requestMaker.query (VObject [("name", VString "n")]).

End Offline.

End Cases.

(** * Properties *)

Section Heap.
Context `{platform : Platform}.

Lemma transport_calls_app t1 t2 :
  transport_calls (t1 ++ t2) = transport_calls t1 ++ transport_calls t2.
Proof.
  induction t1 as [|e t1 IH]; [done|].
  destruct e; simpl; by rewrite ?IH.
Qed.

Lemma parsed_values_app t1 t2 :
  parsed_values (t1 ++ t2) = parsed_values t1 ++ parsed_values t2.
Proof.
  induction t1 as [|e t1 IH]; [done|].
  destruct e; simpl; by rewrite ?IH.
Qed.

Lemma setter_calls_app t1 t2 :
  setter_calls (t1 ++ t2) = setter_calls t1 + setter_calls t2.
Proof.
  induction t1 as [|e t1 IH]; [done|].
  destruct e; simpl; by rewrite ?IH.
Qed.

Lemma lookup_fresh {A} (h : list A) o : (h ++ [o]) !! length h = Some o.
Proof. by rewrite lookup_app_r, Nat.sub_diag. Qed.

Lemma alter_fresh {A} (f : A → A) (h : list A) o :
  alter f (length h) (h ++ [o]) = h ++ [f o].
Proof.
  replace (length h) with (length h + 0) at 1 by lia.
  by rewrite alter_app_r.
Qed.

Lemma read_fresh o (w : World) :
  read (length (heap w)) (with_heap (heap w ++ [o]) w) = o.
Proof.
  unfold read; simpl.
  by rewrite lookup_app_r, Nat.sub_diag.
Qed.

Lemma read_after_alloc l o (w : World) :
  l ≠ length (heap w) →
  read l (with_heap (heap w ++ [o]) w) = read l w.
Proof.
  intros Hl. unfold read; simpl.
  destruct (decide (l < length (heap w))) as [Hlt|Hge].
  - by rewrite lookup_app_l.
  - rewrite !lookup_ge_None_2; [done|lia|].
    rewrite length_app; simpl; lia.
Qed.

Lemma read_write l k v (w : World) :
  l < length (heap w) →
  read l (write l k v w) = <[k := v]> (read l w).
Proof.
  intros Hl. unfold read, write; simpl.
  rewrite list_lookup_alter_eq.
  destruct (lookup_lt_is_Some_2 (heap w) l Hl) as [o Ho].
  by rewrite Ho.
Qed.

Lemma read_write_ne l l' k v (w : World) :
  l ≠ l' → read l (write l' k v w) = read l w.
Proof.
  intros Hl. unfold read, write; simpl.
  by rewrite list_lookup_alter_ne.
Qed.

Lemma prop_insert (o : gmap string value) k v :
  prop (<[k := v]> o) k = v.
Proof. unfold prop. by rewrite lookup_insert_eq. Qed.

Lemma prop_insert_ne (o : gmap string value) k k' v :
  k ≠ k' → prop (<[k := v]> o) k' = prop o k'.
Proof. intros. unfold prop. by rewrite lookup_insert_ne. Qed.

(** The asynchronous result wins wherever it has the key. *)
Lemma lookup_spread_async (a b : gmap string value) k v :
  b !! k = Some v → spread a b !! k = Some v.
Proof. intros Hb. unfold spread. by apply lookup_union_Some_l. Qed.

Lemma lookup_spread_static (a b : gmap string value) k :
  b !! k = None → spread a b !! k = a !! k.
Proof. intros Hb. unfold spread. by rewrite lookup_union_r. Qed.

End Heap.


(** ** One run of the engine, step by step *)

Section Run.
Context `{platform : Platform}.

Lemma validateRequestItem_run requestOptions v schema (w : World) :
  validateRequestItem requestOptions v schema w =
  (request_outcome requestOptions v schema,
   with_events (parse_events schema v) w).
Proof.
  destruct schema as [schema|]; simpl.
  - unfold bind, call_safeParse, with_event.
    by destruct (safeParse schema v).
  - unfold ret, with_events. destruct w; simpl. by rewrite app_nil_r.
Qed.

Lemma handleValidatedResponse_run requestOptions v schema (w : World) :
  handleValidatedResponse requestOptions v schema w =
  (response_outcome requestOptions v schema,
   with_events (parse_events schema v) w).
Proof.
  destruct schema as [schema|]; simpl.
  - unfold bind, call_safeParse, with_event.
    by destruct (safeParse schema v).
  - unfold ret, with_events. destruct w; simpl. by rewrite app_nil_r.
Qed.

(** [execRequest_resume] unfolded. The fresh object holds the merge, then
    the merge with [params] replaced, then with [data] replaced as well; the
    trace grows by the query parse, the body parse, the transport call and
    the response parse, in that order, and stops at the first failure. *)
Lemma execRequest_resume_run baseOptions asyncOptions schemas (w : World) :
  execRequest_resume baseOptions asyncOptions schemas w =
  let requestOptions := length (heap w) in
  let merged := spread (read baseOptions w) asyncOptions in
  let t1 := trace w
            ++ parse_events (schemas ≫= schemas_query) (prop merged "params") in
  match request_outcome requestOptions (prop merged "params")
          (schemas ≫= schemas_query) with
  | Throw t =>
      (Throw t, {| heap := heap w ++ [merged]; env := env w; trace := t1 |})
  | Ok params =>
      let checked := <["params" := params]> merged in
      let t2 := t1 ++ parse_events (schemas ≫= schemas_body)
                                   (prop checked "data") in
      match request_outcome requestOptions (prop checked "data")
              (schemas ≫= schemas_body) with
      | Throw t =>
          (Throw t,
           {| heap := heap w ++ [checked]; env := env w; trace := t2 |})
      | Ok data =>
          let sent := <["data" := data]> checked in
          let t3 := t2 ++ [EvAxios sent] in
          match axios sent (env w) with
          | (Throw t, e) =>
              (Throw t, {| heap := heap w ++ [sent]; env := e; trace := t3 |})
          | (Ok response, e) =>
              (response_outcome requestOptions (prop response "data")
                 (schemas ≫= schemas_response),
               {| heap := heap w ++ [sent]; env := e;
                  trace := t3 ++ parse_events (schemas ≫= schemas_response)
                                              (prop response "data") |})
          end
      end
  end.
Proof.
  unfold execRequest_resume.
  unfold bind at 1. unfold deref at 1.
  unfold bind at 1. unfold alloc, new_object.
  unfold bind at 1. unfold deref at 1. rewrite read_fresh.
  unfold bind at 1. rewrite validateRequestItem_run.
  cbv zeta.
  destruct (request_outcome _ _ (schemas ≫= schemas_query))
    as [params|t]; [|done].
  unfold bind at 1. unfold assign at 1.
  unfold bind at 1. unfold deref at 1.
  unfold with_events, with_heap, write, read; simpl.
  rewrite alter_fresh, lookup_fresh; simpl.
  unfold bind at 1. rewrite validateRequestItem_run.
  destruct (request_outcome _ _ (schemas ≫= schemas_body))
    as [data|t]; [|done].
  unfold bind at 1. unfold assign at 1.
  unfold bind at 1. unfold await_axios.
  unfold with_events, with_heap, write, read; simpl.
  rewrite alter_fresh, lookup_fresh; simpl.
  destruct (axios _ _) as [[response|t] e]; [|done].
  by rewrite handleValidatedResponse_run.
Qed.

Lemma resolve_asyncOptions_run setter (w : World) :
  resolve_asyncOptions setter w =
  match setter with
  | Some f => ((f (env w)).1,
               {| heap := heap w; env := (f (env w)).2;
                  trace := trace w ++ [EvAsyncOptionsSetter] |})
  | None => (Ok ∅, w)
  end.
Proof.
  destruct setter as [f|]; [|done].
  simpl. unfold await_setter. by destruct (f (env w)).
Qed.

(** Resolving the asynchronous options touches neither the heap nor the
    transport nor a schema, and runs the setter once when there is one. *)
Lemma resolve_asyncOptions_frame setter (w : World) r w' :
  resolve_asyncOptions setter w = (r, w') →
  heap w' = heap w
  ∧ trace w' = trace w ++ match setter with
                          | Some _ => [EvAsyncOptionsSetter]
                          | None => []
                          end.
Proof.
  rewrite resolve_asyncOptions_run.
  destruct setter as [f|]; intros [= <- <-]; simpl; [done|].
  by rewrite app_nil_r.
Qed.

(** One run of the engine for a builder whose asynchronous options resolve
    to [asyncOptions], leaving the world [w1]. *)
Lemma engine_run c (w : World) asyncOptions w1 :
  resolve_asyncOptions (asyncOptionsSetterMethod c) w = (Ok asyncOptions, w1) →
  engine c w =
  let requestOptions := length (heap w) in
  let final := spread (description c w) asyncOptions in
  let t1 := trace w1 ++ parse_events (querySchema c) (prop final "params") in
  match request_outcome requestOptions (prop final "params")
          (querySchema c) with
  | Throw t =>
      (Throw t, {| heap := heap w ++ [final]; env := env w1; trace := t1 |})
  | Ok params =>
      let checked := <["params" := params]> final in
      let t2 := t1 ++ parse_events (bodySchema c) (prop final "data") in
      match request_outcome requestOptions (prop final "data")
              (bodySchema c) with
      | Throw t =>
          (Throw t,
           {| heap := heap w ++ [checked]; env := env w1; trace := t2 |})
      | Ok data =>
          let sent := <["data" := data]> checked in
          let t3 := t2 ++ [EvAxios sent] in
          match axios sent (env w1) with
          | (Throw t, e) =>
              (Throw t, {| heap := heap w ++ [sent]; env := e; trace := t3 |})
          | (Ok response, e) =>
              (response_outcome requestOptions (prop response "data")
                 (responseSchema c),
               {| heap := heap w ++ [sent]; env := e;
                  trace := t3 ++ parse_events (responseSchema c)
                                              (prop response "data") |})
          end
      end
  end.
Proof.
  intros Hresolve.
  destruct (resolve_asyncOptions_frame _ _ _ _ Hresolve) as [Hheap _].
  unfold engine, execRequest, bind. rewrite Hresolve.
  rewrite execRequest_resume_run. simpl.
  unfold description, read. rewrite Hheap.
  destruct (request_outcome _ _ (querySchema c)) as [params|t]; [|done].
  by rewrite (prop_insert_ne _ "params" "data").
Qed.

Lemma engine_setter_rejects c (w : World) t w1 :
  resolve_asyncOptions (asyncOptionsSetterMethod c) w = (Throw t, w1) →
  engine c w = (Throw t, w1).
Proof. intros Hresolve. unfold engine, execRequest, bind. by rewrite Hresolve. Qed.

(** [exec] is the engine's run, with a raised validation error handed to
    the handler of its kind. *)
Lemma exec_run c (w : World) :
  requestMaker.exec c w =
  match engine c w with
  | (Ok v, w') => (Ok v, w')
  | (Throw (ThrowRequestValidationError e), w') =>
      requestValidationErrorHandler c e w'
  | (Throw (ThrowResponseValidationError e), w') =>
      responseValidationErrorHandler c e w'
  | (Throw (ThrowOther reason), w') => (Throw (ThrowOther reason), w')
  end.
Proof.
  unfold requestMaker.exec, catch, engine.
  destruct (execRequest _ _ _ w) as [[v|[e|e|reason]] w']; done.
Qed.

(** When both request validations pass, the transport is called once,
    with the merge in which [params] and [data] hold the validated values. *)
Lemma engine_sends c (w : World) asyncOptions w1 params data :
  resolve_asyncOptions (asyncOptionsSetterMethod c) w = (Ok asyncOptions, w1) →
  let final := spread (description c w) asyncOptions in
  request_outcome (length (heap w)) (prop final "params") (querySchema c)
    = Ok params →
  request_outcome (length (heap w)) (prop final "data") (bodySchema c)
    = Ok data →
  transport_calls (trace (engine c w).2)
  = transport_calls (trace w)
    ++ [<["data" := data]> (<["params" := params]> final)].
Proof.
  intros Hresolve final Hquery Hbody.
  rewrite (engine_run _ _ _ _ Hresolve). cbv zeta. fold final.
  rewrite Hquery, Hbody.
  destruct (resolve_asyncOptions_frame _ _ _ _ Hresolve) as [_ ->].
  destruct (axios _ _) as [[response|t] e]; simpl;
    rewrite !transport_calls_app; simpl;
    destruct (asyncOptionsSetterMethod c), (querySchema c), (bodySchema c),
      (responseSchema c); simpl; by rewrite ?app_nil_r.
Qed.

Lemma engine_query_rejected c (w : World) asyncOptions w1 schema error :
  resolve_asyncOptions (asyncOptionsSetterMethod c) w = (Ok asyncOptions, w1) →
  let final := spread (description c w) asyncOptions in
  querySchema c = Some schema →
  safeParse schema (prop final "params") = ParseFailure error →
  engine c w =
  (Throw (ThrowRequestValidationError
            {| request_zodError := error;
               request_metadata :=
                 {| request_requestOptions := length (heap w);
                    request := prop final "params" |} |}),
   {| heap := heap w ++ [final]; env := env w1;
      trace := trace w1 ++ [EvSafeParse (prop final "params")] |}).
Proof.
  intros Hresolve final Hschema Hparse.
  rewrite (engine_run _ _ _ _ Hresolve). cbv zeta. fold final.
  rewrite Hschema. simpl. by rewrite Hparse.
Qed.

Lemma engine_body_rejected c (w : World) asyncOptions w1 params schema error :
  resolve_asyncOptions (asyncOptionsSetterMethod c) w = (Ok asyncOptions, w1) →
  let final := spread (description c w) asyncOptions in
  request_outcome (length (heap w)) (prop final "params") (querySchema c)
    = Ok params →
  bodySchema c = Some schema →
  safeParse schema (prop final "data") = ParseFailure error →
  engine c w =
  (Throw (ThrowRequestValidationError
            {| request_zodError := error;
               request_metadata :=
                 {| request_requestOptions := length (heap w);
                    request := prop final "data" |} |}),
   {| heap := heap w ++ [<["params" := params]> final]; env := env w1;
      trace := (trace w1
                ++ parse_events (querySchema c) (prop final "params"))
               ++ [EvSafeParse (prop final "data")] |}).
Proof.
  intros Hresolve final Hquery Hschema Hparse.
  rewrite (engine_run _ _ _ _ Hresolve). cbv zeta. fold final.
  rewrite Hquery, Hschema. simpl. by rewrite Hparse.
Qed.

Lemma engine_response_rejected c (w : World) asyncOptions w1 params data
    response e schema error :
  resolve_asyncOptions (asyncOptionsSetterMethod c) w = (Ok asyncOptions, w1) →
  let final := spread (description c w) asyncOptions in
  let sent := <["data" := data]> (<["params" := params]> final) in
  request_outcome (length (heap w)) (prop final "params") (querySchema c)
    = Ok params →
  request_outcome (length (heap w)) (prop final "data") (bodySchema c)
    = Ok data →
  axios sent (env w1) = (Ok response, e) →
  responseSchema c = Some schema →
  safeParse schema (prop response "data") = ParseFailure error →
  engine c w =
  (Throw (ThrowResponseValidationError
            {| response_zodError := error;
               response_metadata :=
                 {| response_requestOptions := length (heap w);
                    response := prop response "data" |} |}),
   {| heap := heap w ++ [sent]; env := e;
      trace := (((trace w1
                  ++ parse_events (querySchema c) (prop final "params"))
                 ++ parse_events (bodySchema c) (prop final "data"))
                ++ [EvAxios sent])
               ++ [EvSafeParse (prop response "data")] |}).
Proof.
  intros Hresolve final sent Hquery Hbody Htransport Hschema Hparse.
  rewrite (engine_run _ _ _ _ Hresolve). cbv zeta. fold final.
  rewrite Hquery, Hbody. fold sent. rewrite Htransport, Hschema.
  simpl. by rewrite Hparse.
Qed.

(** The object created by a run is the last one of the heap. *)
Lemma read_last (w w' : World) o :
  heap w' = heap w ++ [o] → read (length (heap w)) w' = o.
Proof. intros Hheap. unfold read. by rewrite Hheap, lookup_fresh. Qed.

(** A run whose trace shows one more transport call passed both request
    validations, and that call carried the validated merge. *)
Lemma engine_sent_inv c (w : World) asyncOptions w1 sent :
  resolve_asyncOptions (asyncOptionsSetterMethod c) w = (Ok asyncOptions, w1) →
  let final := spread (description c w) asyncOptions in
  transport_calls (trace (engine c w).2) = transport_calls (trace w) ++ [sent] →
  ∃ params data,
    request_outcome (length (heap w)) (prop final "params") (querySchema c)
      = Ok params
    ∧ request_outcome (length (heap w)) (prop final "data") (bodySchema c)
      = Ok data
    ∧ sent = <["data" := data]> (<["params" := params]> final).
Proof.
  intros Hresolve final Hcalls.
  destruct (resolve_asyncOptions_frame _ _ _ _ Hresolve) as [_ Htrace].
  assert (Hsame : transport_calls (trace w1) = transport_calls (trace w)).
  { rewrite Htrace, transport_calls_app.
    destruct (asyncOptionsSetterMethod c); simpl; by rewrite app_nil_r. }
  assert (Hparse : ∀ schema v,
             transport_calls (parse_events schema v) = []).
  { by intros [?|] ?. }
  destruct (request_outcome (length (heap w)) (prop final "params")
              (querySchema c)) as [params|t] eqn:Hquery.
  - destruct (request_outcome (length (heap w)) (prop final "data")
                (bodySchema c)) as [data|t] eqn:Hbody.
    + exists params, data. split_and!; [done..|].
      rewrite (engine_sends _ _ _ _ _ _ Hresolve Hquery Hbody) in Hcalls.
      apply app_inv_head in Hcalls. by injection Hcalls.
    + exfalso. rewrite (engine_run _ _ _ _ Hresolve) in Hcalls.
      cbv zeta in Hcalls. fold final in Hcalls.
      rewrite Hquery, Hbody in Hcalls. simpl in Hcalls.
      rewrite !transport_calls_app, !Hparse, !app_nil_r, Hsame in Hcalls.
      apply (f_equal length) in Hcalls.
      rewrite length_app in Hcalls. simpl in Hcalls. lia.
  - exfalso. rewrite (engine_run _ _ _ _ Hresolve) in Hcalls.
    cbv zeta in Hcalls. fold final in Hcalls.
    rewrite Hquery in Hcalls. simpl in Hcalls.
    rewrite !transport_calls_app, !Hparse, !app_nil_r, Hsame in Hcalls.
    apply (f_equal length) in Hcalls.
    rewrite length_app in Hcalls. simpl in Hcalls. lia.
Qed.

(** A run creates at most one object, after those that exist, and runs the
    setter once when there is one. *)
Lemma engine_frame c (w : World) :
  (∃ created, heap (engine c w).2 = heap w ++ created)
  ∧ setter_calls (trace (engine c w).2)
    = setter_calls (trace w)
      + match asyncOptionsSetterMethod c with Some _ => 1 | None => 0 end.
Proof.
  assert (Hparse : ∀ schema v, setter_calls (parse_events schema v) = 0).
  { by intros [?|] ?. }
  destruct (resolve_asyncOptions (asyncOptionsSetterMethod c) w)
    as [[asyncOptions|t] w1] eqn:Hresolve.
  - destruct (resolve_asyncOptions_frame _ _ _ _ Hresolve) as [_ Htrace].
    assert (Hsetter : setter_calls (trace w1)
                      = setter_calls (trace w)
                        + match asyncOptionsSetterMethod c with
                          | Some _ => 1 | None => 0 end).
    { rewrite Htrace, setter_calls_app.
      by destruct (asyncOptionsSetterMethod c). }
    rewrite (engine_run _ _ _ _ Hresolve). cbv zeta.
    destruct (request_outcome _ _ (querySchema c)) as [params|?]; simpl.
    + destruct (request_outcome _ _ (bodySchema c)) as [data|?]; simpl.
      * destruct (axios _ _) as [[response|?] e]; simpl;
          (split; [by eexists|]);
          rewrite !setter_calls_app, !Hparse, Hsetter; simpl; lia.
      * split; [by eexists|].
        rewrite !setter_calls_app, !Hparse, Hsetter; simpl; lia.
    + split; [by eexists|].
      rewrite !setter_calls_app, !Hparse, Hsetter; simpl; lia.
  - rewrite (engine_setter_rejects _ _ _ _ Hresolve). simpl.
    destruct (resolve_asyncOptions_frame _ _ _ _ Hresolve) as [-> ->].
    split; [exists []; by rewrite app_nil_r|].
    rewrite setter_calls_app. by destruct (asyncOptionsSetterMethod c).
Qed.

(** Console output is neither a transport call, nor a parse, nor a setter
    call. *)
Lemma transport_calls_console t messages :
  transport_calls (t ++ map EvConsoleError messages) = transport_calls t.
Proof.
  rewrite transport_calls_app.
  replace (transport_calls (map EvConsoleError messages)) with
    (@nil (gmap string value)); [by rewrite app_nil_r|].
  induction messages; simpl; auto.
Qed.

Lemma setter_calls_console t messages :
  setter_calls (t ++ map EvConsoleError messages) = setter_calls t.
Proof.
  rewrite setter_calls_app.
  replace (setter_calls (map EvConsoleError messages)) with 0; [lia|].
  induction messages; simpl; auto.
Qed.

Lemma parsed_values_console t messages :
  parsed_values (t ++ map EvConsoleError messages) = parsed_values t.
Proof.
  rewrite parsed_values_app.
  replace (parsed_values (map EvConsoleError messages)) with
    (@nil value); [by rewrite app_nil_r|].
  induction messages; simpl; auto.
Qed.

(** The default handler, step by step. *)
Lemma defaultHandleValidationError_run error (w : World) :
  defaultHandleValidationError error w = default_outcome error w.
Proof.
  unfold defaultHandleValidationError, default_outcome, unserializable,
    report, bind, deref, stringify, console_error, throw, ret.
  cbv zeta.
  destruct (serializable (prop (read (error_requestOptions error) w) "data"));
    [|done].
  destruct (serializable (prop (read (error_requestOptions error) w)
                            "params")); [|done].
  by destruct (serializable (VArray (issues (error_zodError error)))).
Qed.

(** The options that a failed run's error refers to are the last object of
    the heap. *)
Lemma unserializable_last error (w w' : World) o :
  heap w' = heap w ++ [o] →
  error_requestOptions error = length (heap w) →
  unserializable error w'
  = if negb (serializable (prop o "data")) then Some (prop o "data")
    else if negb (serializable (prop o "params")) then Some (prop o "params")
    else if negb (serializable (VArray (issues (error_zodError error))))
         then Some (VArray (issues (error_zodError error)))
         else None.
Proof.
  intros Hheap Hloc. unfold unserializable.
  by rewrite Hloc, (read_last w w' o Hheap).
Qed.

Lemma defaultHandleValidationError_quiet :
  quiet defaultHandleValidationError.
Proof.
  intros error w. rewrite defaultHandleValidationError_run.
  unfold default_outcome. destruct (unserializable error w).
  - exists []. unfold with_events. simpl. rewrite app_nil_r. by destruct w.
  - by eexists [_].
Qed.

Lemma defaultRequestValidationHandler_quiet :
  quiet defaultRequestValidationHandler.
Proof. intros e w. apply (defaultHandleValidationError_quiet (inl e)). Qed.

Lemma defaultResponseValidationHandler_quiet :
  quiet defaultResponseValidationHandler.
Proof. intros e w. apply (defaultHandleValidationError_quiet (inr e)). Qed.

(** With quiet handlers, [exec] leaves the world as the engine left it, up
    to console output. *)
Lemma exec_quiet c (w : World) :
  quiet (requestValidationErrorHandler c) →
  quiet (responseValidationErrorHandler c) →
  ∃ messages,
    (requestMaker.exec c w).2
    = with_events (map EvConsoleError messages) (engine c w).2.
Proof.
  intros Hrequest Hresponse. rewrite exec_run.
  destruct (engine c w) as [[v|[e|e|reason]] w']; simpl.
  - exists []. unfold with_events; simpl. rewrite app_nil_r. by destruct w'.
  - apply Hrequest.
  - apply Hresponse.
  - exists []. unfold with_events; simpl. rewrite app_nil_r. by destruct w'.
Qed.

End Run.

(** ** The validation pipeline *)

Section Pipeline.
Context `{platform : Platform}.

(** C7. With no schema in the slot, validating a request item returns the
    item itself and validating a response returns the response itself,
    whatever the value and the context: no error is raised, no schema is
    called and the world is left as it was. Hence in a run the transport
    receives the final [params] (and [data]) untouched when the query (the
    body) slot is empty, and [exec] resolves to the transport's raw
    response data when the response slot is empty. *)
Theorem no_schema_passthrough :
  (∀ (context : loc) (v : value) (w : World),
     validateRequestItem context v None w = (Ok v, w)
     ∧ handleValidatedResponse context v None w = (Ok v, w))
  ∧ (∀ c (w : World) asyncOptions w1 sent,
       resolve_asyncOptions (asyncOptionsSetterMethod c) w
         = (Ok asyncOptions, w1) →
       let final := spread (description c w) asyncOptions in
       transport_calls (trace (engine c w).2)
         = transport_calls (trace w) ++ [sent] →
       (querySchema c = None → prop sent "params" = prop final "params")
       ∧ (bodySchema c = None → prop sent "data" = prop final "data")
       ∧ (responseSchema c = None →
          ∀ received e,
            axios sent (env w1) = (Ok received, e) →
            (requestMaker.exec c w).1 = Ok (prop received "data"))).
Proof.
  split; [done|].
  intros c w asyncOptions w1 sent Hresolve final Hcalls.
  destruct (engine_sent_inv _ _ _ _ _ Hresolve Hcalls)
    as (params & data & Hquery & Hbody & ->).
  subst final. split_and!.
  - intros Hnone. rewrite Hnone in Hquery. injection Hquery as <-.
    by rewrite (prop_insert_ne _ "data" "params"), prop_insert.
  - intros Hnone. rewrite Hnone in Hbody. injection Hbody as <-.
    by rewrite prop_insert.
  - intros Hnone received e Htransport.
    rewrite exec_run, (engine_run _ _ _ _ Hresolve). cbv zeta.
    by rewrite Hquery, Hbody, Htransport, Hnone.
Qed.

End Pipeline.

(** ** Ordering of validation and transport *)

Section Ordering.
Context `{platform : Platform}.

(** C1. Once the asynchronous options are resolved, a run validates the
    query, then the body, then calls the transport, then validates the
    response, and stops at the first failure:
    - a query that its schema rejects raises the query error (the one whose
      rejected value is the final [params]), whatever the body is, after a
      single [safeParse] call and with no transport call; [exec] hands that
      very error to the request-validation handler;
    - a body that its schema rejects, after the query passed, raises the
      body error, again with no transport call;
    - when both pass, the transport is called exactly once, after the
      request parses, and the response is parsed only after it resolved. *)
Theorem validation_order c (w : World) asyncOptions w1 :
  resolve_asyncOptions (asyncOptionsSetterMethod c) w = (Ok asyncOptions, w1) →
  let requestOptions := length (heap w) in
  let final := spread (description c w) asyncOptions in
  (∀ schema error,
     querySchema c = Some schema →
     safeParse schema (prop final "params") = ParseFailure error →
     let raised :=
       {| request_zodError := error;
          request_metadata :=
            {| request_requestOptions := requestOptions;
               request := prop final "params" |} |} in
     let w2 :=
       {| heap := heap w ++ [final]; env := env w1;
          trace := trace w1 ++ [EvSafeParse (prop final "params")] |} in
     engine c w = (Throw (ThrowRequestValidationError raised), w2)
     ∧ requestMaker.exec c w = requestValidationErrorHandler c raised w2
     ∧ transport_calls (trace w2) = transport_calls (trace w))
  ∧ (∀ params schema error,
       request_outcome requestOptions (prop final "params") (querySchema c)
         = Ok params →
       bodySchema c = Some schema →
       safeParse schema (prop final "data") = ParseFailure error →
       let raised :=
         {| request_zodError := error;
            request_metadata :=
              {| request_requestOptions := requestOptions;
                 request := prop final "data" |} |} in
       let w2 :=
         {| heap := heap w ++ [<["params" := params]> final]; env := env w1;
            trace := trace w1
                     ++ parse_events (querySchema c) (prop final "params")
                     ++ [EvSafeParse (prop final "data")] |} in
       engine c w = (Throw (ThrowRequestValidationError raised), w2)
       ∧ requestMaker.exec c w = requestValidationErrorHandler c raised w2
       ∧ transport_calls (trace w2) = transport_calls (trace w))
  ∧ (∀ params data,
       request_outcome requestOptions (prop final "params") (querySchema c)
         = Ok params →
       request_outcome requestOptions (prop final "data") (bodySchema c)
         = Ok data →
       let sent := <["data" := data]> (<["params" := params]> final) in
       ∃ after,
         trace (engine c w).2 =
           trace w1
           ++ parse_events (querySchema c) (prop final "params")
           ++ parse_events (bodySchema c) (prop final "data")
           ++ [EvAxios sent] ++ after
         ∧ after =
             match axios sent (env w1) with
             | (Ok response, _) =>
                 parse_events (responseSchema c) (prop response "data")
             | (Throw _, _) => []
             end
         ∧ transport_calls (trace (engine c w).2)
           = transport_calls (trace w) ++ [sent]).
Proof.
  intros Hresolve requestOptions final.
  pose proof (engine_run _ _ _ _ Hresolve) as Hrun.
  destruct (resolve_asyncOptions_frame _ _ _ _ Hresolve) as [_ Htrace].
  assert (Hcalls : transport_calls (trace w1) = transport_calls (trace w)).
  { rewrite Htrace, transport_calls_app.
    destruct (asyncOptionsSetterMethod c); simpl; by rewrite app_nil_r. }
  cbv zeta in Hrun. fold requestOptions final in Hrun.
  split_and!.
  - intros schema error Hschema Hparse raised w2.
    rewrite Hschema in Hrun. simpl in Hrun. rewrite Hparse in Hrun.
    split_and!; [done| |].
    + by rewrite exec_run, Hrun.
    + subst w2; simpl. rewrite transport_calls_app; simpl.
      by rewrite app_nil_r.
  - intros params schema error Hquery Hschema Hparse raised w2.
    rewrite Hquery, Hschema in Hrun. simpl in Hrun. rewrite Hparse in Hrun.
    rewrite <- (assoc_L (++)) in Hrun.
    split_and!; [done| |].
    + by rewrite exec_run, Hrun.
    + subst w2; simpl. rewrite !transport_calls_app; simpl.
      destruct (querySchema c); simpl; by rewrite ?app_nil_r.
  - intros params data Hquery Hbody sent.
    rewrite Hquery, Hbody in Hrun. fold sent in Hrun.
    destruct (axios sent (env w1)) as [[response|t] e];
      rewrite Hrun; simpl; eexists; (split_and!; [|reflexivity|]).
    + by rewrite <- !(assoc_L (++)).
    + rewrite !transport_calls_app, Hcalls; simpl.
      destruct (querySchema c), (bodySchema c), (responseSchema c);
        simpl; by rewrite ?app_nil_r.
    + by rewrite <- !(assoc_L (++)).
    + rewrite !transport_calls_app, Hcalls; simpl.
      destruct (querySchema c), (bodySchema c); simpl; by rewrite ?app_nil_r.
Qed.

End Ordering.

Section OrderingWitness.
#[local] Existing Instance Fixtures.server.

(** A builder without schemas: the transport receives the configured query
    and body, extra keys included, and [exec] resolves to the whole response
    data. *)
Lemma no_schema_passthrough_witness :
  let c := (Scenarios.unchecked Scenarios.start).1 in
  let w := (Scenarios.unchecked Scenarios.start).2 in
  ∃ sent,
    transport_calls (trace (engine c w).2) = [sent]
    ∧ prop sent "params" = Scenarios.good_query
    ∧ prop sent "data" = Scenarios.good_body
    ∧ (requestMaker.exec c w).1
      = Ok (VObject [("id", VNumber 1); ("etag", VString "e")]).
Proof.
  intros c w. eexists. split; [reflexivity|].
  destruct no_schema_passthrough as [_ Hrun].
  destruct (Hrun c w ∅ w _ eq_refl eq_refl) as (Hquery & Hbody & Hresponse).
  split_and!.
  - by rewrite Hquery.
  - by rewrite Hbody.
  - etrans; [eapply Hresponse; reflexivity|reflexivity].
Defined.

(** On a builder whose query and body both break their schemas, the run
    raises the error about the query and the transport is not reached. *)
Lemma validation_order_witness :
  let c := (Scenarios.both_invalid Scenarios.start).1 in
  let w := (Scenarios.both_invalid Scenarios.start).2 in
  resolve_asyncOptions (asyncOptionsSetterMethod c) w = (Ok ∅, w)
  ∧ ∃ raised w2,
      engine c w = (Throw (ThrowRequestValidationError raised), w2)
      ∧ request (request_metadata raised) = Scenarios.bad_query
      ∧ parsed_values (trace w2) = [Scenarios.bad_query]
      ∧ transport_calls (trace w2) = [].
Proof.
  intros c w. split; [reflexivity|].
  destruct (validation_order c w ∅ w eq_refl) as [Hquery _].
  destruct (Hquery Fixtures.name_string
              {| issues := [Fixtures.invalid_type [VString "name"]] |}
              eq_refl eq_refl) as (Hengine & _ & Hcalls).
  eexists _, _. split_and!; [exact Hengine|reflexivity|reflexivity|exact Hcalls].
Defined.

End OrderingWitness.

(** ** The builder's chain calls *)

Section Chain.
Context `{platform : Platform}.

Lemma chain_run (b : World → Closure * World) call (w : World) :
  (b |> call) w = call (b w).1 (b w).2.
Proof. unfold chain. by destruct (b w). Qed.

Lemma validatedRequestMaker_run host (w : World) :
  let made := validatedRequestMaker host w in
  allocated made.1 made.2
  ∧ baseOptions made.1 = length (heap w)
  ∧ description made.1 made.2 = {[ "url" := VString host ]}.
Proof.
  simpl. unfold allocated, description; simpl. split_and!; [|done|].
  - rewrite length_app; simpl; lia.
  - apply read_fresh.
Qed.

Lemma description_write c k v (w : World) :
  allocated c w →
  description c (write (baseOptions c) k v w) = <[k := v]> (description c w).
Proof. apply read_write. Qed.

Lemma allocated_write c l k v (w : World) :
  allocated c w → allocated c (write l k v w).
Proof. unfold allocated, write; simpl. by rewrite length_alter. Qed.

Lemma concatPath_run segment c (w : World) url :
  allocated c w →
  prop (description c w) "url" = VString url →
  let called := requestMaker.concatPath segment c w in
  called.1 = c
  ∧ allocated called.1 called.2
  ∧ prop (description called.1 called.2) "url"
    = VString (url +:+ "/" +:+ segment).
Proof.
  intros Halloc Hurl. simpl. split_and!; [done|by apply allocated_write|].
  rewrite description_write by done.
  fold (description c w). by rewrite Hurl, prop_insert.
Qed.

Lemma concatPaths_run segments : ∀ (b : World → Closure * World) url,
  (∀ w, allocated (b w).1 (b w).2
        ∧ prop (description (b w).1 (b w).2) "url" = VString url) →
  ∀ w, let built := concatPaths segments b w in
       allocated built.1 built.2
       ∧ prop (description built.1 built.2) "url"
         = VString (joined url segments).
Proof.
  induction segments as [|segment segments IH]; intros b url Hb w.
  - apply Hb.
  - apply (IH (b |> requestMaker.concatPath segment)
              (url +:+ "/" +:+ segment)).
    intros w0. rewrite chain_run.
    destruct (Hb w0) as [Halloc Hurl].
    by destruct (concatPath_run segment _ _ _ Halloc Hurl) as (_ & ? & ?).
Qed.

(** C9. The url of a new builder is the host it was created with; a
    [concatPath] call on a builder whose url is the string [url] leaves the
    url [url ++ "/" ++ segment], the segment being copied as it is; hence
    creating a builder and concatenating a list of segments gives the host
    followed by each segment behind a slash, and
    [create("http://h").concatPath("a").concatPath("b")] has the url
    ["http://h/a/b"], which is also the url the transport receives when that
    builder is executed. *)
Theorem url_concatenation :
  (∀ host (w : World),
     let made := validatedRequestMaker host w in
     prop (description made.1 made.2) "url" = VString host)
  ∧ (∀ c (w : World) url segment,
       allocated c w →
       prop (description c w) "url" = VString url →
       let called := requestMaker.concatPath segment c w in
       called.1 = c
       ∧ prop (description called.1 called.2) "url"
         = VString (url +:+ "/" +:+ segment))
  ∧ (∀ host segments (w : World),
       let built := concatPaths segments (validatedRequestMaker host) w in
       prop (description built.1 built.2) "url"
       = VString (joined host segments))
  ∧ (∀ w : World,
       let built := (validatedRequestMaker "http://h"
                     |> requestMaker.concatPath "a"
                     |> requestMaker.concatPath "b") w in
       prop (description built.1 built.2) "url" = VString "http://h/a/b"
       ∧ ∃ sent,
           transport_calls (trace (requestMaker.exec built.1 built.2).2)
           = transport_calls (trace w) ++ [sent]
           ∧ prop sent "url" = VString "http://h/a/b").
Proof.
  assert (Hmade : ∀ host (w : World),
             let made := validatedRequestMaker host w in
             allocated made.1 made.2
             ∧ prop (description made.1 made.2) "url" = VString host).
  { intros host w made.
    destruct (validatedRequestMaker_run host w) as (Halloc & _ & Hdesc).
    split; [done|]. subst made. by rewrite Hdesc. }
  split_and!.
  - intros host w. apply Hmade.
  - intros c w url segment Halloc Hurl.
    by destruct (concatPath_run segment _ _ _ Halloc Hurl) as (? & _ & ?).
  - intros host segments w.
    by destruct (concatPaths_run segments (validatedRequestMaker host) host
                   (Hmade host) w).
  - intros w built.
    destruct (concatPaths_run ["a"; "b"] (validatedRequestMaker "http://h")
                "http://h" (Hmade "http://h") w) as [_ Hurl].
    change (concatPaths _ _ w) with built in Hurl.
    split; [exact Hurl|].
    assert (Hsetter : asyncOptionsSetterMethod built.1 = None) by done.
    assert (Hquery : querySchema built.1 = None) by done.
    assert (Hbody : bodySchema built.1 = None) by done.
    assert (Hrequest : requestValidationErrorHandler built.1
                       = defaultRequestValidationHandler) by done.
    assert (Hresponse : responseValidationErrorHandler built.1
                        = defaultResponseValidationHandler) by done.
    assert (Htrace : trace built.2 = trace w) by done.
    clearbody built. clear Hmade. destruct built as [c w']. simpl in *.
    destruct (exec_quiet c w') as [messages ->].
    { rewrite Hrequest. apply defaultRequestValidationHandler_quiet. }
    { rewrite Hresponse. apply defaultResponseValidationHandler_quiet. }
    assert (Hresolve : resolve_asyncOptions (asyncOptionsSetterMethod c) w'
                       = (Ok ∅, w')) by (by rewrite Hsetter).
    eexists. split.
    + cbn [trace with_events]. rewrite transport_calls_console.
      erewrite (engine_sends c w' ∅ w');
        [by rewrite Htrace|done|by rewrite Hquery|by rewrite Hbody].
    + unfold spread. rewrite (left_id_L ∅ (∪)).
      by rewrite !prop_insert_ne.
Qed.

(** One chain call: what it makes of the description, and what it does to
    the heap. *)
Lemma run_call_effect k c (w : World) :
  allocated c w →
  let called := run_call k c w in
  allocated called.1 called.2
  ∧ description called.1 called.2 = effect k (description c w)
  ∧ (∀ l, l < length (heap w) → l ≠ baseOptions c →
          read l called.2 = read l w)
  ∧ match k with
    | Options options =>
        called.1 = set_baseOptions (length (heap w)) c
        ∧ heap called.2 = heap w ++ [spread (description c w) options]
        ∧ read (baseOptions c) called.2 = description c w
    | _ =>
        called.1 = c ∧ length (heap called.2) = length (heap w)
    end.
Proof.
  intros Halloc.
  destruct k as [path|method|options|query|body]; simpl.
  1, 2, 4, 5:
    split_and!;
    [by apply allocated_write
    |by rewrite description_write
    |by intros l _ Hl; apply read_write_ne
    |done
    |by unfold write; simpl; rewrite length_alter].
  split_and!; try done.
  - unfold allocated; simpl. rewrite length_app; simpl; lia.
  - apply read_fresh.
  - intros l Hl _. apply read_after_alloc. lia.
  - apply read_after_alloc. unfold allocated in Halloc. lia.
Qed.

Lemma run_calls_effect ks : ∀ (b : World → Closure * World) (w : World),
  allocated (b w).1 (b w).2 →
  let built := run_calls ks b w in
  allocated built.1 built.2
  ∧ description built.1 built.2
    = fold_left (λ d k, effect k d) ks (description (b w).1 (b w).2).
Proof.
  induction ks as [|k ks IH]; intros b w Halloc; [done|].
  simpl.
  destruct (run_call_effect k _ _ Halloc) as (Halloc' & Hdesc & _).
  specialize (IH (b |> run_call k) w).
  rewrite chain_run in IH. rewrite <- Hdesc. by apply IH.
Qed.

(** C3, amended. [concatPath], [method], [query] and [body] assign into the
    object the builder refers to: the builder is unchanged, no object is
    created and no other object is touched. [options] creates a new object
    holding the shallow merge of the description with the given options,
    moves the builder to it and leaves every earlier object, the previous
    description included, as it was. Either way the next call finds the
    description the previous call left, so a chain acts as its calls in
    order: a call overrides the keys it sets, [options] those of its
    argument, and [concatPath] extends the url it finds. *)
Theorem chain_calls_compose c (w : World) :
  allocated c w →
  (∀ k, let called := run_call k c w in
        allocated called.1 called.2
        ∧ description called.1 called.2 = effect k (description c w)
        ∧ (∀ l, l < length (heap w) → l ≠ baseOptions c →
                read l called.2 = read l w)
        ∧ match k with
          | Options options =>
              called.1 = set_baseOptions (length (heap w)) c
              ∧ heap called.2 = heap w ++ [spread (description c w) options]
              ∧ read (baseOptions c) called.2 = description c w
          | _ =>
              called.1 = c ∧ length (heap called.2) = length (heap w)
          end)
  ∧ (∀ ks, let built := run_calls ks (λ w, (c, w)) w in
           allocated built.1 built.2
           ∧ description built.1 built.2
             = fold_left (λ d k, effect k d) ks (description c w))
  ∧ (∀ d method, prop (effect (Method method) d) "method" = VString method)
  ∧ (∀ d query, prop (effect (Query query) d) "params" = query)
  ∧ (∀ d body, prop (effect (Body body) d) "data" = body)
  ∧ (∀ d options k,
       effect (Options options) d !! k
       = match options !! k with Some v => Some v | None => d !! k end)
  ∧ (∀ d url path,
       prop d "url" = VString url →
       prop (effect (ConcatPath path) d) "url"
       = VString (url +:+ "/" +:+ path)).
Proof.
  intros Halloc. split_and!.
  - intros k. by apply run_call_effect.
  - intros ks. by apply (run_calls_effect ks (λ w, (c, w)) w).
  - intros. apply prop_insert.
  - intros. apply prop_insert.
  - intros. apply prop_insert.
  - intros d options k. simpl. unfold spread. rewrite lookup_union.
    destruct (options !! k), (d !! k); done.
  - intros d url path Hurl. simpl. by rewrite prop_insert, Hurl.
Qed.

End Chain.

Section ChainWitness.
#[local] Existing Instance Fixtures.server.

(** A segment is appended as it is, spaces and dots included. *)
Lemma url_concatenation_witness :
  let c := Scenarios.made.1 in
  let w := Scenarios.made.2 in
  let called := requestMaker.concatPath "a b/../c" c w in
  allocated c w
  ∧ prop (description c w) "url" = VString "http://h"
  ∧ prop (description called.1 called.2) "url" = VString "http://h/a b/../c".
Proof.
  intros c w called.
  assert (Halloc : allocated c w) by (unfold allocated; simpl; lia).
  destruct url_concatenation as (_ & Hstep & _).
  split_and!; [exact Halloc|reflexivity|].
  by destruct (Hstep c w "http://h" "a b/../c" Halloc eq_refl).
Defined.

(** C3, as stated, fails for [options]: on a new builder, whose description
    is object 0, [options({ timeout: 5 })] creates object 1, which holds the
    merge, and moves the builder to it; object 0 is left without the
    timeout. *)
Lemma options_in_place_counterexample :
  let c := Scenarios.made.1 in
  let w := Scenarios.made.2 in
  let called := run_call (Options Scenarios.with_timeout) c w in
  allocated c w
  ∧ baseOptions c = 0
  ∧ baseOptions called.1 = 1
  ∧ length (heap w) = 1
  ∧ length (heap called.2) = 2
  ∧ read 0 called.2 !! "timeout" = None
  ∧ read 1 called.2 !! "timeout" = Some (VNumber 5)
  ∧ ¬ in_place (run_call (Options Scenarios.with_timeout)).
Proof.
  intros c w called.
  assert (Halloc : allocated c w) by (unfold allocated; simpl; lia).
  split_and!; try reflexivity; [exact Halloc|].
  intros Hin_place. by destruct (Hin_place c w Halloc) as [? _].
Qed.

(** Where the difference shows. [exec] hands the engine the reference the
    builder holds when it is called, and the engine reads the object behind
    it once the setter has resolved. A [concatPath] made while the setter is
    awaited reaches the request under way; made after an [options] call it
    does not, because the builder has moved to another object. *)
Example request_under_way :
  let c := (Scenarios.overlapping Scenarios.start).1 in
  let w := (Scenarios.overlapping Scenarios.start).2 in
  let waiting := (resolve_asyncOptions (asyncOptionsSetterMethod c) w).2 in
  let schemas :=
    Some {| schemas_body := bodySchema c;
            schemas_query := querySchema c;
            schemas_response := responseSchema c |} in
  let urls_sent (w' : World) :=
    map (λ sent, prop sent "url")
      (transport_calls
         (trace (execRequest_resume (baseOptions c) Scenarios.resolved
                   schemas w').2)) in
  urls_sent waiting = [VString "http://h"]
  ∧ urls_sent (run_calls [ConcatPath "x"] (λ w, (c, w)) waiting).2
    = [VString "http://h/x"]
  ∧ urls_sent (run_calls [Options Scenarios.with_timeout; ConcatPath "x"]
                 (λ w, (c, w)) waiting).2
    = [VString "http://h"].
Proof. by vm_compute. Qed.

End ChainWitness.

(** ** What reaches the transport *)

Section Transport.
Context `{platform : Platform}.

(** C4, amended. The final options are the shallow merge of the
    description with the resolved asynchronous options, the asynchronous
    value winning on every key it defines, and the merge is what query and
    body validation work on. When the transport is called, every key but
    [params] and [data] that the asynchronous options define reaches it with
    the asynchronous value; [params] and [data] reach it as validation left
    them: the asynchronous value itself when the slot has no schema, the
    schema's output for the asynchronous value otherwise, and never the
    static value. *)
Theorem async_precedence c (w : World) asyncOptions w1 :
  resolve_asyncOptions (asyncOptionsSetterMethod c) w = (Ok asyncOptions, w1) →
  let final := spread (description c w) asyncOptions in
  (∀ k, final !! k = match asyncOptions !! k with
                     | Some v => Some v
                     | None => description c w !! k
                     end)
  ∧ (∀ schema error,
       querySchema c = Some schema →
       safeParse schema (prop final "params") = ParseFailure error →
       ∃ e, (engine c w).1 = Throw (ThrowRequestValidationError e)
            ∧ request (request_metadata e) = prop final "params")
  ∧ (∀ params schema error,
       request_outcome (length (heap w)) (prop final "params") (querySchema c)
         = Ok params →
       bodySchema c = Some schema →
       safeParse schema (prop final "data") = ParseFailure error →
       ∃ e, (engine c w).1 = Throw (ThrowRequestValidationError e)
            ∧ request (request_metadata e) = prop final "data")
  ∧ (∀ sent,
       transport_calls (trace (engine c w).2)
         = transport_calls (trace w) ++ [sent] →
       (∀ k v, asyncOptions !! k = Some v → k ≠ "params" → k ≠ "data" →
               sent !! k = Some v)
       ∧ (∀ v, asyncOptions !! "params" = Some v →
               request_outcome (length (heap w)) v (querySchema c)
               = Ok (prop sent "params"))
       ∧ (∀ v, asyncOptions !! "data" = Some v →
               request_outcome (length (heap w)) v (bodySchema c)
               = Ok (prop sent "data"))
       ∧ (∀ v, asyncOptions !! "params" = Some v → querySchema c = None →
               sent !! "params" = Some v)
       ∧ (∀ v, asyncOptions !! "data" = Some v → bodySchema c = None →
               sent !! "data" = Some v)).
Proof.
  intros Hresolve final. split_and!.
  - intros k. unfold final, spread. rewrite lookup_union.
    destruct (asyncOptions !! k), (description c w !! k); done.
  - intros schema error Hschema Hparse.
    rewrite (engine_query_rejected _ _ _ _ _ _ Hresolve Hschema Hparse).
    by eexists.
  - intros params schema error Hquery Hschema Hparse.
    rewrite (engine_body_rejected _ _ _ _ _ _ _ Hresolve Hquery Hschema
               Hparse).
    by eexists.
  - intros sent Hcalls.
    destruct (engine_sent_inv _ _ _ _ _ Hresolve Hcalls)
      as (params & data & Hquery & Hbody & ->).
    fold final in Hquery, Hbody.
    assert (Hfinal : ∀ k v, asyncOptions !! k = Some v → prop final k = v).
    { intros k v Hk. unfold prop, final.
      by rewrite (lookup_spread_async _ _ _ _ Hk). }
    split_and!.
    + intros k v Hk Hparams Hdata.
      rewrite !lookup_insert_ne by done.
      by apply lookup_spread_async.
    + intros v Hv. rewrite <- (Hfinal _ _ Hv), Hquery.
      by rewrite (prop_insert_ne _ "data" "params"), prop_insert.
    + intros v Hv. rewrite <- (Hfinal _ _ Hv), Hbody.
      by rewrite prop_insert.
    + intros v Hv Hnone. rewrite Hnone, (Hfinal _ _ Hv) in Hquery.
      injection Hquery as <-.
      by rewrite lookup_insert_ne, lookup_insert_eq.
    + intros v Hv Hnone. rewrite Hnone, (Hfinal _ _ Hv) in Hbody.
      injection Hbody as <-.
      by rewrite lookup_insert_eq.
Qed.

(** C6. A value that its schema accepts goes on as the schema's output:
    validating it returns that output; when both request validations pass,
    the transport is called with [params] and [data] holding what they
    returned, which for a slot with a schema is the output of its parse; and
    when the transport resolves and the response schema accepts the
    response data, [exec] resolves to the output of that parse. *)
Theorem normalized_values_flow c (w : World) asyncOptions w1 params data :
  resolve_asyncOptions (asyncOptionsSetterMethod c) w = (Ok asyncOptions, w1) →
  let final := spread (description c w) asyncOptions in
  request_outcome (length (heap w)) (prop final "params") (querySchema c)
    = Ok params →
  request_outcome (length (heap w)) (prop final "data") (bodySchema c)
    = Ok data →
  let sent := <["data" := data]> (<["params" := params]> final) in
  (∀ context v schema normalized (w0 : World),
     safeParse schema v = ParseSuccess normalized →
     validateRequestItem context v (Some schema) w0
       = (Ok normalized, with_event (EvSafeParse v) w0)
     ∧ handleValidatedResponse context v (Some schema) w0
       = (Ok normalized, with_event (EvSafeParse v) w0))
  ∧ transport_calls (trace (engine c w).2) = transport_calls (trace w) ++ [sent]
  ∧ prop sent "params" = params
  ∧ prop sent "data" = data
  ∧ (∀ schema normalized,
       querySchema c = Some schema →
       safeParse schema (prop final "params") = ParseSuccess normalized →
       params = normalized)
  ∧ (∀ schema normalized,
       bodySchema c = Some schema →
       safeParse schema (prop final "data") = ParseSuccess normalized →
       data = normalized)
  ∧ (∀ response e schema normalized,
       axios sent (env w1) = (Ok response, e) →
       responseSchema c = Some schema →
       safeParse schema (prop response "data") = ParseSuccess normalized →
       (requestMaker.exec c w).1 = Ok normalized).
Proof.
  intros Hresolve final Hquery Hbody sent. split_and!.
  - intros context v schema normalized w0 Hparse.
    rewrite validateRequestItem_run, handleValidatedResponse_run. simpl.
    by rewrite Hparse.
  - by apply (engine_sends _ _ _ _ _ _ Hresolve).
  - unfold sent. by rewrite (prop_insert_ne _ "data" "params"), prop_insert.
  - unfold sent. by rewrite prop_insert.
  - intros schema normalized Hschema Hparse.
    rewrite Hschema in Hquery. simpl in Hquery. rewrite Hparse in Hquery.
    by injection Hquery.
  - intros schema normalized Hschema Hparse.
    rewrite Hschema in Hbody. simpl in Hbody. rewrite Hparse in Hbody.
    by injection Hbody.
  - intros response e schema normalized Htransport Hschema Hparse.
    rewrite exec_run, (engine_run _ _ _ _ Hresolve). cbv zeta. fold final.
    rewrite Hquery, Hbody. fold sent. rewrite Htransport, Hschema. simpl.
    by rewrite Hparse.
Qed.

End Transport.

Section TransportWitness.
#[local] Existing Instance Fixtures.server.

(** C4, as stated, fails for [params] under a schema that normalizes: the
    description holds [params = { name: "s" }], the setter resolves
    [params = { name: "n", page: 2 }], and the transport receives
    [params = { name: "n" }], the output of the query schema. *)
Lemma async_value_counterexample :
  let c := (Scenarios.overlapping Scenarios.start).1 in
  let w := (Scenarios.overlapping Scenarios.start).2 in
  (resolve_asyncOptions (asyncOptionsSetterMethod c) w).1
    = Ok Scenarios.resolved
  ∧ description c w !! "params" = Some Scenarios.static_query
  ∧ Scenarios.resolved !! "params" = Some Scenarios.good_query
  ∧ map (λ sent, sent !! "params") (transport_calls (trace (engine c w).2))
    = [Some (VObject [("name", VString "n")])]
  ∧ ¬ async_value_reaches_transport c w.
Proof.
  intros c w. split_and!; try reflexivity.
  intros Hclaim.
  pose proof (Hclaim Scenarios.resolved _ "params" Scenarios.static_query
                Scenarios.good_query _ eq_refl eq_refl eq_refl eq_refl)
    as Hparams.
  vm_compute in Hparams. discriminate Hparams.
Qed.

(** On the same builder the transport receives the asynchronous timeout and
    the header that only the setter defines, and the query schema's output
    for the asynchronous [params]. *)
Lemma async_precedence_witness :
  let c := (Scenarios.overlapping Scenarios.start).1 in
  let w := (Scenarios.overlapping Scenarios.start).2 in
  description c w !! "timeout" = Some (VNumber 5)
  ∧ ∃ w1 sent,
      resolve_asyncOptions (asyncOptionsSetterMethod c) w
        = (Ok Scenarios.resolved, w1)
      ∧ transport_calls (trace (engine c w).2) = [sent]
      ∧ sent !! "timeout" = Some (VNumber 9)
      ∧ sent !! "headers"
        = Some (VObject [("Authorization", VString "Bearer t")])
      ∧ request_outcome (length (heap w)) Scenarios.good_query (querySchema c)
        = Ok (prop sent "params").
Proof.
  intros c w. split; [reflexivity|].
  eexists _, _. split; [reflexivity|]. split; [reflexivity|].
  destruct (async_precedence c w Scenarios.resolved _ eq_refl)
    as (_ & _ & _ & Hsent).
  destruct (Hsent _ eq_refl) as (Hother & Hparams & _).
  split_and!.
  - by apply Hother.
  - by apply Hother.
  - by apply Hparams.
Defined.

(** End to end: with schemas on query, body and response, the transport
    receives the stripped query and body, and [exec] resolves to the
    stripped response [{ id: 1 }]. *)
Lemma normalized_values_flow_witness :
  let c := (Scenarios.all_checked Scenarios.start).1 in
  let w := (Scenarios.all_checked Scenarios.start).2 in
  description c w !! "params" = Some Scenarios.good_query
  ∧ description c w !! "data" = Some Scenarios.good_body
  ∧ (∃ sent,
       transport_calls (trace (engine c w).2) = [sent]
       ∧ prop sent "params" = VObject [("name", VString "n")]
       ∧ prop sent "data" = VObject [("age", VNumber 30)])
  ∧ (requestMaker.exec c w).1 = Ok (VObject [("id", VNumber 1)]).
Proof.
  intros c w.
  destruct (normalized_values_flow c w ∅ w
              (VObject [("name", VString "n")])
              (VObject [("age", VNumber 30)]) eq_refl eq_refl eq_refl)
    as (_ & Hcalls & Hparams & Hdata & _ & _ & Hexec).
  split_and!; [reflexivity|reflexivity| |].
  - eexists. split_and!; [exact Hcalls|exact Hparams|exact Hdata].
  - by eapply (Hexec _ _ Fixtures.id_number).
Defined.

End TransportWitness.

(** ** What a validation error carries *)

Section Errors.
Context `{platform : Platform}.

(** C5. A request item that its schema rejects raises a
    [RequestValidationError] holding the schema's error (its issue list),
    the reference to the request options and the rejected item as
    [metadata.request]; a response that its schema rejects raises a
    [ResponseValidationError] holding the same and the raw response as
    [metadata.response]. In a run, the options the error refers to are the
    final options as they are when validation fails: the merge for a query
    failure, the merge with the validated [params] for a body failure, what
    the transport received for a response failure. In particular, with the
    body schema [{ age: number }] and the body [{ age: "x" }] on a new
    builder, [exec] raises a [RequestValidationError] whose
    [metadata.request] is [{ age: "x" }], without any transport call. *)
Theorem validation_error_contents :
  (∀ context v schema error (w : World),
     safeParse schema v = ParseFailure error →
     validateRequestItem context v (Some schema) w
     = (Throw (ThrowRequestValidationError
                 {| request_zodError := error;
                    request_metadata :=
                      {| request_requestOptions := context;
                         request := v |} |}),
        with_event (EvSafeParse v) w))
  ∧ (∀ context v schema error (w : World),
       safeParse schema v = ParseFailure error →
       handleValidatedResponse context v (Some schema) w
       = (Throw (ThrowResponseValidationError
                   {| response_zodError := error;
                      response_metadata :=
                        {| response_requestOptions := context;
                           response := v |} |}),
          with_event (EvSafeParse v) w))
  ∧ (∀ c (w : World) asyncOptions w1,
       resolve_asyncOptions (asyncOptionsSetterMethod c) w
         = (Ok asyncOptions, w1) →
       let final := spread (description c w) asyncOptions in
       (∀ schema error,
          querySchema c = Some schema →
          safeParse schema (prop final "params") = ParseFailure error →
          ∃ e w',
            engine c w = (Throw (ThrowRequestValidationError e), w')
            ∧ issues (request_zodError e) = issues error
            ∧ request (request_metadata e) = prop final "params"
            ∧ read (request_requestOptions (request_metadata e)) w' = final
            ∧ transport_calls (trace w') = transport_calls (trace w))
       ∧ (∀ params schema error,
            request_outcome (length (heap w)) (prop final "params")
              (querySchema c) = Ok params →
            bodySchema c = Some schema →
            safeParse schema (prop final "data") = ParseFailure error →
            ∃ e w',
              engine c w = (Throw (ThrowRequestValidationError e), w')
              ∧ issues (request_zodError e) = issues error
              ∧ request (request_metadata e) = prop final "data"
              ∧ read (request_requestOptions (request_metadata e)) w'
                = <["params" := params]> final
              ∧ transport_calls (trace w') = transport_calls (trace w))
       ∧ (∀ params data received e0 schema error,
            request_outcome (length (heap w)) (prop final "params")
              (querySchema c) = Ok params →
            request_outcome (length (heap w)) (prop final "data")
              (bodySchema c) = Ok data →
            let sent := <["data" := data]> (<["params" := params]> final) in
            axios sent (env w1) = (Ok received, e0) →
            responseSchema c = Some schema →
            safeParse schema (prop received "data") = ParseFailure error →
            ∃ e w',
              engine c w = (Throw (ThrowResponseValidationError e), w')
              ∧ issues (response_zodError e) = issues error
              ∧ response (response_metadata e) = prop received "data"
              ∧ read (response_requestOptions (response_metadata e)) w'
                = sent
              ∧ transport_calls (trace w')
                = transport_calls (trace w) ++ [sent]))
  ∧ (∀ host (w : World),
       let built := (validatedRequestMaker host
                     |> requestMaker.bodySchema Fixtures.age_number
                     |> requestMaker.body (VObject [("age", VString "x")]))
                      w in
       ∃ e w',
         requestMaker.exec built.1 built.2
           = (Throw (ThrowRequestValidationError e), w')
         ∧ request (request_metadata e) = VObject [("age", VString "x")]
         ∧ transport_calls (trace w') = transport_calls (trace w)).
Proof.
  assert (Hsame : ∀ c (w : World) asyncOptions w1,
             resolve_asyncOptions (asyncOptionsSetterMethod c) w
               = (Ok asyncOptions, w1) →
             transport_calls (trace w1) = transport_calls (trace w)).
  { intros c w asyncOptions w1 Hresolve.
    destruct (resolve_asyncOptions_frame _ _ _ _ Hresolve) as [_ ->].
    rewrite transport_calls_app.
    destruct (asyncOptionsSetterMethod c); simpl; by rewrite app_nil_r. }
  assert (Hparse : ∀ schema v, transport_calls (parse_events schema v) = []).
  { by intros [?|] ?. }
  split_and!.
  - intros context v schema error w Hfail.
    rewrite validateRequestItem_run. simpl. by rewrite Hfail.
  - intros context v schema error w Hfail.
    rewrite handleValidatedResponse_run. simpl. by rewrite Hfail.
  - intros c w asyncOptions w1 Hresolve final. split_and!.
    + intros schema error Hschema Hfail.
      eexists _, _. split.
      { exact (engine_query_rejected _ _ _ _ _ _ Hresolve Hschema Hfail). }
      simpl. split_and!; [done|done|by apply (read_last w)|].
      rewrite transport_calls_app, (Hsame _ _ _ _ Hresolve). simpl.
      by rewrite app_nil_r.
    + intros params schema error Hquery Hschema Hfail.
      eexists _, _. split.
      { exact (engine_body_rejected _ _ _ _ _ _ _ Hresolve Hquery Hschema
                 Hfail). }
      simpl. split_and!; [done|done|by apply (read_last w)|].
      rewrite !transport_calls_app, Hparse, (Hsame _ _ _ _ Hresolve). simpl.
      by rewrite !app_nil_r.
    + intros params data received e0 schema error Hquery Hbody sent
        Htransport Hschema Hfail.
      eexists _, _. split.
      { exact (engine_response_rejected _ _ _ _ _ _ _ _ _ _ Hresolve
                 Hquery Hbody Htransport Hschema Hfail). }
      simpl. split_and!; [done|done|by apply (read_last w)|].
      rewrite !transport_calls_app, !Hparse, (Hsame _ _ _ _ Hresolve). simpl.
      by rewrite !app_nil_r.
  - intros host w built.
    assert (Hsetter : asyncOptionsSetterMethod built.1 = None) by done.
    assert (Hquery : querySchema built.1 = None) by done.
    assert (Hbody : bodySchema built.1 = Some Fixtures.age_number) by done.
    assert (Hrequest : requestValidationErrorHandler built.1
                       = defaultRequestValidationHandler) by done.
    assert (Htrace : trace built.2 = trace w) by done.
    assert (Hdesc : description built.1 built.2
                    = <["data" := VObject [("age", VString "x")]]>
                        {[ "url" := VString host ]}).
    { unfold built. rewrite !chain_run.
      destruct (validatedRequestMaker_run host w) as (Halloc & _ & Hmade).
      cbn [requestMaker.bodySchema requestMaker.body fst snd].
      unfold description in *. cbn [baseOptions set_bodySchema].
      rewrite read_write by exact Halloc. by rewrite Hmade. }
    clearbody built. destruct built as [c w0]. simpl in *.
    assert (Hresolve : resolve_asyncOptions (asyncOptionsSetterMethod c) w0
                       = (Ok ∅, w0)) by (by rewrite Hsetter).
    assert (Hfinal : spread (description c w0) ∅
                     = <["data" := VObject [("age", VString "x")]]>
                         {[ "url" := VString host ]}).
    { unfold spread. by rewrite (left_id_L ∅ (∪)). }
    pose proof (engine_body_rejected c w0 ∅ w0 VUndefined Fixtures.age_number
                  {| issues := [Fixtures.invalid_type [VString "age"]] |}
                  Hresolve) as Hengine.
    rewrite Hfinal, Hquery in Hengine.
    specialize (Hengine eq_refl Hbody eq_refl).
    rewrite exec_run, Hengine, Hrequest.
    unfold defaultRequestValidationHandler.
    rewrite defaultHandleValidationError_run. unfold default_outcome.
    erewrite (unserializable_last _ w0) by reflexivity.
    eexists _, _. split; [reflexivity|].
    split; [reflexivity|].
    simpl. rewrite !transport_calls_app. simpl.
    by rewrite !app_nil_r, Htrace.
Qed.

(** C10. The options snapshot of a raised request-validation error shows
    how far validation had come: when the query schema rejects the final
    [params], the options the error refers to still hold the raw [params];
    when the query schema accepts them and the body schema then rejects the
    body, they already hold the query schema's output as [params]. [exec]
    hands the handler that error in that world. *)
Theorem error_snapshot_params c (w : World) asyncOptions w1 :
  resolve_asyncOptions (asyncOptionsSetterMethod c) w = (Ok asyncOptions, w1) →
  let final := spread (description c w) asyncOptions in
  (∀ schema error,
     querySchema c = Some schema →
     safeParse schema (prop final "params") = ParseFailure error →
     ∃ e w',
       engine c w = (Throw (ThrowRequestValidationError e), w')
       ∧ requestMaker.exec c w = requestValidationErrorHandler c e w'
       ∧ request (request_metadata e) = prop final "params"
       ∧ prop (read (request_requestOptions (request_metadata e)) w') "params"
         = prop final "params")
  ∧ (∀ schema normalized body_schema error,
       querySchema c = Some schema →
       safeParse schema (prop final "params") = ParseSuccess normalized →
       bodySchema c = Some body_schema →
       safeParse body_schema (prop final "data") = ParseFailure error →
       ∃ e w',
         engine c w = (Throw (ThrowRequestValidationError e), w')
         ∧ requestMaker.exec c w = requestValidationErrorHandler c e w'
         ∧ request (request_metadata e) = prop final "data"
         ∧ prop (read (request_requestOptions (request_metadata e)) w')
             "params"
           = normalized).
Proof.
  intros Hresolve final. split.
  - intros schema error Hschema Hfail.
    pose proof (engine_query_rejected _ _ _ _ _ _ Hresolve Hschema Hfail)
      as Hengine.
    eexists _, _. split; [exact Hengine|].
    split; [by rewrite exec_run, Hengine|].
    simpl. split; [done|].
    by rewrite (read_last w _ final).
  - intros schema normalized body_schema error Hschema Hparse Hbody Hfail.
    assert (Hquery : request_outcome (length (heap w)) (prop final "params")
                       (querySchema c) = Ok normalized).
    { rewrite Hschema. simpl. by rewrite Hparse. }
    pose proof (engine_body_rejected _ _ _ _ _ _ _ Hresolve Hquery Hbody
                  Hfail) as Hengine.
    eexists _, _. split; [exact Hengine|].
    split; [by rewrite exec_run, Hengine|].
    simpl. split; [done|].
    rewrite (read_last w _ (<["params" := normalized]> final)) by done.
    apply prop_insert.
Qed.

End Errors.

Section ErrorsWitness.
#[local] Existing Instance Fixtures.server.

(** A response that breaks its schema: the error carries the raw response
    and refers to the options the transport received. *)
Lemma validation_error_contents_witness :
  let c := (Scenarios.response_invalid Scenarios.start).1 in
  let w := (Scenarios.response_invalid Scenarios.start).2 in
  ∃ e w',
    engine c w = (Throw (ThrowResponseValidationError e), w')
    ∧ response (response_metadata e)
      = VObject [("id", VNumber 1); ("etag", VString "e")]
    ∧ issues (response_zodError e) = [Fixtures.invalid_type [VString "name"]]
    ∧ prop (read (response_requestOptions (response_metadata e)) w') "url"
      = VString "http://h"
    ∧ length (transport_calls (trace w')) = 1.
Proof.
  intros c w.
  destruct validation_error_contents as (_ & _ & Hrun & _).
  destruct (Hrun c w ∅ w eq_refl) as (_ & _ & Hresponse).
  destruct (Hresponse VUndefined VUndefined _ _ Fixtures.name_string
              {| issues := [Fixtures.invalid_type [VString "name"]] |}
              eq_refl eq_refl eq_refl eq_refl eq_refl)
    as (e & w' & Hengine & Hissues & Hraw & Hread & Hcalls).
  exists e, w'. split_and!.
  - exact Hengine.
  - exact Hraw.
  - exact Hissues.
  - by rewrite Hread.
  - by rewrite Hcalls.
Defined.

(** A valid query with an extra key and an invalid body: the options the
    body error refers to hold the stripped query, not the configured one. *)
Lemma error_snapshot_params_witness :
  let c := (Scenarios.body_invalid Scenarios.start).1 in
  let w := (Scenarios.body_invalid Scenarios.start).2 in
  prop (description c w) "params"
    = VObject [("name", VString "n"); ("page", VNumber 2)]
  ∧ ∃ e w',
      engine c w = (Throw (ThrowRequestValidationError e), w')
      ∧ request (request_metadata e) = Scenarios.bad_body
      ∧ prop (read (request_requestOptions (request_metadata e)) w') "params"
        = VObject [("name", VString "n")].
Proof.
  intros c w. split; [reflexivity|].
  destruct (error_snapshot_params c w ∅ w eq_refl) as [_ Hbody].
  destruct (Hbody Fixtures.name_string (VObject [("name", VString "n")])
              Fixtures.age_number
              {| issues := [Fixtures.invalid_type [VString "age"]] |}
              eq_refl eq_refl eq_refl eq_refl)
    as (e & w' & Hengine & _ & Hrequest & Hparams).
  exists e, w'. split_and!; [exact Hengine|exact Hrequest|exact Hparams].
Defined.

End ErrorsWitness.

(** ** [exec] only reads the description *)

Section Frame.
Context `{platform : Platform}.

Lemma engine_reads c (w : World) l :
  l < length (heap w) → read l (engine c w).2 = read l w.
Proof.
  intros Hl. destruct (engine_frame c w) as [[created Hheap] _].
  unfold read. rewrite Hheap. by rewrite lookup_app_l.
Qed.

(** One [exec] with quiet handlers. *)
Lemma exec_step c (w : World) :
  quiet (requestValidationErrorHandler c) →
  quiet (responseValidationErrorHandler c) →
  let w' := (requestMaker.exec c w).2 in
  (∀ l, l < length (heap w) → read l w' = read l w)
  ∧ length (heap w) ≤ length (heap w')
  ∧ setter_calls (trace w')
    = setter_calls (trace w)
      + match asyncOptionsSetterMethod c with Some _ => 1 | None => 0 end
  ∧ (asyncOptionsSetterMethod c = None →
     ∀ schema, querySchema c = Some schema →
     ∃ rest, parsed_values (trace w')
             = parsed_values (trace w)
               ++ prop (description c w) "params" :: rest).
Proof.
  intros Hrequest Hresponse w'.
  destruct (exec_quiet c w Hrequest Hresponse) as [messages Hw'].
  fold w' in Hw'. rewrite Hw'. cbn [with_events heap trace].
  destruct (engine_frame c w) as [[created Hheap] Hsetter].
  split_and!.
  - intros l Hl. unfold read. cbn [heap]. by apply engine_reads.
  - rewrite Hheap, length_app. lia.
  - by rewrite setter_calls_console.
  - intros Hnone schema Hschema. rewrite parsed_values_console.
    assert (Hresolve : resolve_asyncOptions (asyncOptionsSetterMethod c) w
                       = (Ok ∅, w)) by (by rewrite Hnone).
    rewrite (engine_run _ _ _ _ Hresolve). cbv zeta.
    unfold spread. rewrite (left_id_L ∅ (∪)), Hschema.
    destruct (request_outcome _ _ (Some schema)) as [params|?]; simpl.
    + destruct (request_outcome _ _ (bodySchema c)) as [data|?]; simpl.
      * destruct (axios _ _) as [[received|?] e]; simpl;
          rewrite <- !(assoc_L (++)), parsed_values_app; simpl;
          by eexists.
      * rewrite <- !(assoc_L (++)), parsed_values_app; simpl. by eexists.
    + rewrite parsed_values_app; simpl. by eexists.
Qed.

Lemma exec_times_frame c n : ∀ w : World,
  allocated c w →
  quiet (requestValidationErrorHandler c) →
  quiet (responseValidationErrorHandler c) →
  description c (exec_times n c w) = description c w
  ∧ setter_calls (trace (exec_times n c w))
    = setter_calls (trace w)
      + n * match asyncOptionsSetterMethod c with Some _ => 1 | None => 0 end
  ∧ (asyncOptionsSetterMethod c = None →
     ∀ schema, querySchema c = Some schema →
     length (parsed_values (trace w)) + n
     ≤ length (parsed_values (trace (exec_times n c w)))).
Proof.
  induction n as [|n IH]; intros w Halloc Hrequest Hresponse.
  - simpl. split_and!; [done|lia|intros; lia].
  - destruct (exec_step c w Hrequest Hresponse)
      as (Hread & Hlength & Hsetter & Hparsed).
    simpl.
    destruct (IH (requestMaker.exec c w).2) as (Hdesc & Hcount & Hvalid);
      [unfold allocated in *; lia|done..|].
    split_and!.
    + rewrite Hdesc. by apply Hread.
    + rewrite Hcount, Hsetter. lia.
    + intros Hnone schema Hschema.
      specialize (Hvalid Hnone schema Hschema).
      destruct (Hparsed Hnone schema Hschema) as [rest Hrest].
      rewrite Hrest, length_app in Hvalid. simpl in Hvalid. lia.
Qed.

(** The run that follows the resolution of the asynchronous options makes
    the expected calls and ends as expected. *)
Lemma engine_expected c (w : World) asyncOptions w1 :
  resolve_asyncOptions (asyncOptionsSetterMethod c) w = (Ok asyncOptions, w1) →
  let final := spread (description c w) asyncOptions in
  trace (engine c w).2
  = trace w1 ++ expected_events c (length (heap w)) final (env w1)
  ∧ (engine c w).1 = expected_result c (length (heap w)) final (env w1).
Proof.
  intros Hresolve final.
  rewrite (engine_run _ _ _ _ Hresolve). cbv zeta. fold final.
  unfold expected_events, expected_result.
  destruct (request_outcome _ _ (querySchema c)) as [params|?]; simpl;
    [|by rewrite app_nil_r].
  destruct (request_outcome _ _ (bodySchema c)) as [data|?]; simpl;
    [|by rewrite app_nil_r, <- !(assoc_L (++))].
  destruct (axios _ _) as [[received|?] e]; simpl;
    by rewrite <- !(assoc_L (++)).
Qed.

(** The call after [n] calls starts from the world those left. *)
Lemma exec_times_next c n : ∀ w : World,
  exec_times (S n) c w = (requestMaker.exec c (exec_times n c w)).2.
Proof.
  induction n as [|n IH]; intros w; [done|].
  change (exec_times (S (S n)) c w)
    with (exec_times (S n) c (requestMaker.exec c w).2).
  by rewrite IH.
Qed.

(** C8. A run of the engine creates its own object for the merged options
    and assigns the validated [params] and [data] there: every object that
    existed before, the builder's description among them, reads the same
    after the run, whether it returned or raised. With handlers that only
    report, the same holds after [exec], and after any number of [exec]
    calls on the same builder: the description is what it was and the
    setter has run once per call when there is one. The next call is a run
    of its own: it invokes the setter again, in the outside world as the
    earlier calls left it, merges what the setter resolves to with the
    unchanged description, and validates again, query, body and response,
    each filled slot parsing its value, in the order of a first run and with
    its result. [exec] assigns to none of the builder's bindings: it
    returns no new closure. *)
Theorem exec_only_reads c (w : World) :
  allocated c w →
  (∃ created, heap (engine c w).2 = heap w ++ created)
  ∧ (∀ l, l < length (heap w) → read l (engine c w).2 = read l w)
  ∧ description c (engine c w).2 = description c w
  ∧ (quiet (requestValidationErrorHandler c) →
     quiet (responseValidationErrorHandler c) →
     (∀ l, l < length (heap w) →
           read l (requestMaker.exec c w).2 = read l w)
     ∧ description c (requestMaker.exec c w).2 = description c w
     ∧ setter_calls (trace (requestMaker.exec c w).2)
       = setter_calls (trace w)
         + match asyncOptionsSetterMethod c with Some _ => 1 | None => 0 end
     ∧ ∀ n,
         description c (exec_times n c w) = description c w
         ∧ setter_calls (trace (exec_times n c w))
           = setter_calls (trace w)
             + n * match asyncOptionsSetterMethod c with
                   | Some _ => 1 | None => 0 end
         ∧ (asyncOptionsSetterMethod c = None →
            ∀ schema, querySchema c = Some schema →
            length (parsed_values (trace w)) + n
            ≤ length (parsed_values (trace (exec_times n c w))))
         ∧ exec_times (S n) c w
           = (requestMaker.exec c (exec_times n c w)).2
         ∧ (∀ t w1,
              resolve_asyncOptions (asyncOptionsSetterMethod c)
                (exec_times n c w) = (Throw t, w1) →
              trace w1 = trace (exec_times n c w) ++ setter_events c
              ∧ engine c (exec_times n c w) = (Throw t, w1))
         ∧ (∀ asyncOptions w1,
              resolve_asyncOptions (asyncOptionsSetterMethod c)
                (exec_times n c w) = (Ok asyncOptions, w1) →
              let wn := exec_times n c w in
              let final := spread (description c w) asyncOptions in
              let events :=
                expected_events c (length (heap wn)) final (env w1) in
              let result :=
                expected_result c (length (heap wn)) final (env w1) in
              trace w1 = trace wn ++ setter_events c
              ∧ trace (engine c wn).2 = trace w1 ++ events
              ∧ (engine c wn).1 = result
              ∧ (∃ messages,
                   trace (requestMaker.exec c wn).2
                   = trace w1 ++ events ++ map EvConsoleError messages)
              ∧ (∀ v, result = Ok v → (requestMaker.exec c wn).1 = Ok v)
              ∧ (∀ reason, result = Throw (ThrowOther reason) →
                           (requestMaker.exec c wn).1
                           = Throw (ThrowOther reason)))).
Proof.
  intros Halloc. split_and!.
  - apply engine_frame.
  - intros l Hl. by apply engine_reads.
  - by apply engine_reads.
  - intros Hrequest Hresponse.
    destruct (exec_step c w Hrequest Hresponse) as (Hread & _ & Hsetter & _).
    split_and!; [done|by apply Hread|done|].
    intros n.
    destruct (exec_times_frame c n w Halloc Hrequest Hresponse)
      as (Hdesc & Hcount & Hparsed).
    split_and!; [done|done|done|apply exec_times_next| |].
    + intros t w1 Hresolve.
      destruct (resolve_asyncOptions_frame _ _ _ _ Hresolve) as [_ Htrace].
      split; [exact Htrace|by apply engine_setter_rejects].
    + intros asyncOptions w1 Hresolve wn final events result.
      destruct (resolve_asyncOptions_frame _ _ _ _ Hresolve) as [_ Htrace].
      destruct (engine_expected c wn asyncOptions w1 Hresolve)
        as [Hevents Hresult].
      fold wn in Hdesc. rewrite Hdesc in Hevents, Hresult.
      fold final events in Hevents. fold final result in Hresult.
      split_and!; [exact Htrace|exact Hevents|exact Hresult| | |].
      * destruct (exec_quiet c wn Hrequest Hresponse) as [messages ->].
        exists messages. cbn [with_events trace].
        by rewrite Hevents, <- (assoc_L (++)).
      * intros v Hv. rewrite exec_run.
        rewrite Hv in Hresult.
        destruct (engine c wn) as [r w']. simpl in Hresult. by subst r.
      * intros reason Hreason. rewrite exec_run.
        rewrite Hreason in Hresult.
        destruct (engine c wn) as [r w']. simpl in Hresult. by subst r.
Qed.

End Frame.

Section FrameWitness.
#[local] Existing Instance Fixtures.server.

(** Three [exec] calls on the builder with a setter and a query schema: the
    description still holds the configured query and timeout, the setter
    ran three times and the transport was called three times; the third
    call resolved the asynchronous options again and the query schema
    parsed the resolved query again, as it did in the first two. *)
Lemma exec_only_reads_witness :
  let c := (Scenarios.overlapping Scenarios.start).1 in
  let w := (Scenarios.overlapping Scenarios.start).2 in
  allocated c w
  ∧ description c (exec_times 3 c w) = description c w
  ∧ prop (description c (exec_times 3 c w)) "params" = Scenarios.static_query
  ∧ setter_calls (trace (exec_times 3 c w)) = 3
  ∧ length (transport_calls (trace (exec_times 3 c w))) = 3
  ∧ parsed_values (trace (engine c (exec_times 2 c w)).2)
    = [Scenarios.good_query; Scenarios.good_query; Scenarios.good_query]
  ∧ (requestMaker.exec c (exec_times 2 c w)).1
    = Ok (VObject [("id", VNumber 1); ("etag", VString "e")]).
Proof.
  intros c w.
  assert (Halloc : allocated c w) by (unfold allocated; simpl; lia).
  destruct (exec_only_reads c w Halloc) as (_ & _ & _ & Hexec).
  destruct Hexec as (_ & _ & _ & Htimes).
  { apply defaultRequestValidationHandler_quiet. }
  { apply defaultResponseValidationHandler_quiet. }
  destruct (Htimes 3) as (Hdesc & Hsetter & _).
  destruct (Htimes 2) as (_ & _ & _ & _ & _ & Hnext).
  destruct (Hnext Scenarios.resolved _ eq_refl)
    as (_ & Hevents & _ & _ & Hvalue & _).
  split_and!; [exact Halloc|exact Hdesc|by rewrite Hdesc|exact Hsetter| | |].
  - reflexivity.
  - by rewrite Hevents.
  - by apply Hvalue.
Defined.

(** A chain of calls on a new builder: the later [method] wins over the
    earlier ones and over the one in [options], the [timeout] of [options]
    stays, and the two path segments are appended in order. *)
Lemma chain_calls_compose_witness :
  let c := Scenarios.made.1 in
  let w := Scenarios.made.2 in
  let built := run_calls Scenarios.configured (λ w, (c, w)) w in
  allocated c w
  ∧ description built.1 built.2
    = {[ "url" := VString "http://h/a/b";
         "method" := VString "PUT";
         "timeout" := VNumber 5 ]}.
Proof.
  intros c w built.
  assert (Halloc : allocated c w) by (unfold allocated; simpl; lia).
  split; [exact Halloc|].
  destruct (chain_calls_compose c w Halloc) as (_ & Hcompose & _).
  destruct (Hcompose Scenarios.configured) as [_ Hdesc].
  etrans; [exact Hdesc|]. by vm_compute.
Defined.

End FrameWitness.

(** ** Failures of the collaborators, and what a run never does *)

Section Collaborators.
Context `{platform : Platform}.

Lemma console_messages_app t1 t2 :
  console_messages (t1 ++ t2) = console_messages t1 ++ console_messages t2.
Proof.
  induction t1 as [|e t1 IH]; [done|].
  destruct e; simpl; by rewrite ?IH.
Qed.

(** [exec] is the run, with a raised error handed to the [catch] callback. *)
Lemma exec_dispatches c (w : World) :
  requestMaker.exec c w =
  match engine c w with
  | (Ok v, w') => (Ok v, w')
  | (Throw t, w') => dispatch c t w'
  end.
Proof.
  rewrite exec_run.
  by destruct (engine c w) as [[v|[e|e|reason]] w'].
Qed.

(** The events of one run: no console output, at most one transport call,
    at most one parse per filled schema slot. *)
Lemma engine_events c (w : World) :
  ∃ events,
    trace (engine c w).2 = trace w ++ events
    ∧ console_messages events = []
    ∧ length (transport_calls events) ≤ 1
    ∧ length (parsed_values events) ≤ schemas_present c.
Proof.
  assert (Hparse : ∀ schema v,
             console_messages (parse_events schema v) = []
             ∧ transport_calls (parse_events schema v) = []
             ∧ length (parsed_values (parse_events schema v))
               = match schema with Some _ => 1 | None => 0 end).
  { by intros [?|] ?. }
  assert (Hsetter : ∀ setter : option AsyncOptionsSetterMethod,
             let events := match setter with
                           | Some _ => [EvAsyncOptionsSetter]
                           | None => []
                           end in
             console_messages events = []
             ∧ transport_calls events = []
             ∧ parsed_values events = []).
  { by intros [?|]. }
  unfold schemas_present.
  destruct (resolve_asyncOptions (asyncOptionsSetterMethod c) w)
    as [[asyncOptions|t] w1] eqn:Hresolve.
  - destruct (resolve_asyncOptions_frame _ _ _ _ Hresolve) as [_ Htrace].
    destruct (Hsetter (asyncOptionsSetterMethod c)) as (Hs1 & Hs2 & Hs3).
    rewrite (engine_run _ _ _ _ Hresolve). cbv zeta. rewrite Htrace.
    set (final := spread (description c w) asyncOptions).
    destruct (Hparse (querySchema c) (prop final "params"))
      as (Hq1 & Hq2 & Hq3).
    destruct (Hparse (bodySchema c) (prop final "data"))
      as (Hb1 & Hb2 & Hb3).
    destruct (request_outcome _ _ (querySchema c)) as [params|?]; simpl.
    + destruct (request_outcome _ _ (bodySchema c)) as [data|?]; simpl.
      * destruct (axios _ _) as [[received|?] e]; simpl.
        -- destruct (Hparse (responseSchema c) (prop received "data"))
             as (Hr1 & Hr2 & Hr3).
           eexists. rewrite <- !(assoc_L (++)). split; [reflexivity|].
           rewrite !console_messages_app, !transport_calls_app,
             !parsed_values_app, !length_app.
           rewrite Hs1, Hs2, Hs3, Hq1, Hq2, Hq3, Hb1, Hb2, Hb3, Hr1, Hr2, Hr3.
           simpl. split_and!; [done|lia|lia].
        -- eexists. rewrite <- !(assoc_L (++)). split; [reflexivity|].
           rewrite !console_messages_app, !transport_calls_app,
             !parsed_values_app, !length_app.
           rewrite Hs1, Hs2, Hs3, Hq1, Hq2, Hq3, Hb1, Hb2, Hb3.
           simpl. split_and!; [done|lia|lia].
      * eexists. rewrite <- !(assoc_L (++)). split; [reflexivity|].
        rewrite !console_messages_app, !transport_calls_app,
          !parsed_values_app, !length_app.
        rewrite Hs1, Hs2, Hs3, Hq1, Hq2, Hq3, Hb1, Hb2, Hb3.
        simpl. split_and!; [done|lia|lia].
    + eexists. rewrite <- !(assoc_L (++)). split; [reflexivity|].
      rewrite !console_messages_app, !transport_calls_app,
        !parsed_values_app, !length_app.
      rewrite Hs1, Hs2, Hs3, Hq1, Hq2, Hq3.
      simpl. split_and!; [done|lia|lia].
  - rewrite (engine_setter_rejects _ _ _ _ Hresolve). simpl.
    destruct (resolve_asyncOptions_frame _ _ _ _ Hresolve) as [_ ->].
    destruct (Hsetter (asyncOptionsSetterMethod c)) as (Hs1 & Hs2 & Hs3).
    eexists. split; [reflexivity|].
    rewrite Hs1, Hs2, Hs3. simpl. split_and!; [done|lia|lia].
Qed.

(** X1. When the option setter rejects, the run ends there: nothing is
    validated, the transport is not called and no object is created; when
    the transport rejects, the response is not validated. Either way [exec]
    treats the rejection as it treats any raised error: one of the two
    validation-error kinds goes to the handler of that kind, although no
    validation of this builder failed, and anything else comes out
    unchanged. *)
Theorem collaborator_rejections c (w : World) :
  (∀ t w1,
     resolve_asyncOptions (asyncOptionsSetterMethod c) w = (Throw t, w1) →
     engine c w = (Throw t, w1)
     ∧ requestMaker.exec c w = dispatch c t w1
     ∧ heap w1 = heap w
     ∧ parsed_values (trace w1) = parsed_values (trace w)
     ∧ transport_calls (trace w1) = transport_calls (trace w))
  ∧ (∀ asyncOptions w1 params data t e,
       resolve_asyncOptions (asyncOptionsSetterMethod c) w
         = (Ok asyncOptions, w1) →
       let final := spread (description c w) asyncOptions in
       request_outcome (length (heap w)) (prop final "params") (querySchema c)
         = Ok params →
       request_outcome (length (heap w)) (prop final "data") (bodySchema c)
         = Ok data →
       let sent := <["data" := data]> (<["params" := params]> final) in
       axios sent (env w1) = (Throw t, e) →
       ∃ w',
         engine c w = (Throw t, w')
         ∧ requestMaker.exec c w = dispatch c t w'
         ∧ env w' = e
         ∧ transport_calls (trace w') = transport_calls (trace w) ++ [sent]
         ∧ parsed_values (trace w')
           = parsed_values (trace w)
             ++ parsed_values (parse_events (querySchema c)
                                 (prop final "params"))
             ++ parsed_values (parse_events (bodySchema c)
                                 (prop final "data"))).
Proof.
  split.
  - intros t w1 Hresolve.
    pose proof (engine_setter_rejects _ _ _ _ Hresolve) as Hengine.
    destruct (resolve_asyncOptions_frame _ _ _ _ Hresolve) as [Hheap Htrace].
    split_and!; [done| |done| |].
    + by rewrite exec_dispatches, Hengine.
    + rewrite Htrace, parsed_values_app.
      destruct (asyncOptionsSetterMethod c); simpl; by rewrite app_nil_r.
    + rewrite Htrace, transport_calls_app.
      destruct (asyncOptionsSetterMethod c); simpl; by rewrite app_nil_r.
  - intros asyncOptions w1 params data t e Hresolve final Hquery Hbody sent
      Htransport.
    destruct (resolve_asyncOptions_frame _ _ _ _ Hresolve) as [_ Htrace].
    assert (Hengine : engine c w =
              (Throw t,
               {| heap := heap w ++ [sent]; env := e;
                  trace := ((trace w1
                             ++ parse_events (querySchema c)
                                  (prop final "params"))
                            ++ parse_events (bodySchema c)
                                 (prop final "data"))
                           ++ [EvAxios sent] |})).
    { rewrite (engine_run _ _ _ _ Hresolve). cbv zeta. fold final.
      rewrite Hquery, Hbody. fold sent. by rewrite Htransport. }
    eexists. split; [exact Hengine|].
    split; [by rewrite exec_dispatches, Hengine|].
    simpl. split; [done|]. rewrite Htrace.
    rewrite !transport_calls_app, !parsed_values_app.
    split;
      destruct (asyncOptionsSetterMethod c), (querySchema c), (bodySchema c);
      simpl; by rewrite ?app_nil_r, <- ?(assoc_L (++)).
Qed.


(** X3. The options the transport receives are the merged options with
    [params] and [data] assigned: both keys are always present, holding
    [undefined] when nothing was configured for them and the slot has no
    schema, and every other key is passed on as merged, none added and none
    dropped. *)
Theorem transport_receives c (w : World) asyncOptions w1 sent :
  resolve_asyncOptions (asyncOptionsSetterMethod c) w = (Ok asyncOptions, w1) →
  let final := spread (description c w) asyncOptions in
  transport_calls (trace (engine c w).2) = transport_calls (trace w) ++ [sent] →
  dom sent = {[ "params"; "data" ]} ∪ dom final
  ∧ (∀ k, k ≠ "params" → k ≠ "data" → sent !! k = final !! k)
  ∧ is_Some (sent !! "params")
  ∧ is_Some (sent !! "data")
  ∧ (final !! "params" = None → querySchema c = None →
     sent !! "params" = Some VUndefined)
  ∧ (final !! "data" = None → bodySchema c = None →
     sent !! "data" = Some VUndefined).
Proof.
  intros Hresolve final Hcalls.
  destruct (engine_sent_inv _ _ _ _ _ Hresolve Hcalls)
    as (params & data & Hquery & Hbody & ->).
  fold final in Hquery, Hbody |- *. split_and!.
  - rewrite !dom_insert_L, (assoc_L (∪)).
    by rewrite (comm_L (∪) {[ "data" ]} {[ "params" ]}).
  - intros k Hparams Hdata. by rewrite !lookup_insert_ne.
  - rewrite lookup_insert_ne, lookup_insert_eq; done.
  - by rewrite lookup_insert_eq.
  - intros Hmissing Hnone. rewrite Hnone in Hquery. simpl in Hquery.
    unfold prop in Hquery. rewrite Hmissing in Hquery.
    injection Hquery as <-.
    by rewrite lookup_insert_ne, lookup_insert_eq.
  - intros Hmissing Hnone. rewrite Hnone in Hbody. simpl in Hbody.
    unfold prop in Hbody. rewrite Hmissing in Hbody.
    injection Hbody as <-.
    by rewrite lookup_insert_eq.
Qed.

(** X4. With the default handlers, a run that returns, or raises anything
    but one of the two validation-error kinds, is all that [exec] does:
    same result, same world, nothing logged. When the run raises a
    validation error whose body, query and issues can be serialized, [exec]
    raises that error and one diagnostic is written; when one of them cannot
    be serialized, [exec] raises the [TypeError] of [JSON.stringify] in its
    place and nothing is written. So exactly one diagnostic is logged when
    a validation error was raised and its three values serialize, and none
    otherwise. *)
Theorem default_handlers_outcome c (w : World) :
  requestValidationErrorHandler c = defaultRequestValidationHandler →
  responseValidationErrorHandler c = defaultResponseValidationHandler →
  (∀ v w', engine c w = (Ok v, w') → requestMaker.exec c w = (Ok v, w'))
  ∧ (∀ reason w',
       engine c w = (Throw (ThrowOther reason), w') →
       requestMaker.exec c w = (Throw (ThrowOther reason), w'))
  ∧ (∀ t error w',
       engine c w = (Throw t, w') →
       validation_kind t = Some error →
       unserializable error w' = None →
       requestMaker.exec c w
       = (Throw t, with_event (EvConsoleError (report error w')) w'))
  ∧ (∀ t error w' v,
       engine c w = (Throw t, w') →
       validation_kind t = Some error →
       unserializable error w' = Some v →
       requestMaker.exec c w = (Throw (ThrowOther (JSON_TypeError v)), w'))
  ∧ length (console_messages (trace (requestMaker.exec c w).2))
    = length (console_messages (trace w))
      + match (engine c w).1 with
        | Ok _ => 0
        | Throw t =>
            match validation_kind t with
            | None => 0
            | Some error =>
                match unserializable error (engine c w).2 with
                | None => 1
                | Some _ => 0
                end
            end
        end.
Proof.
  intros Hrequest Hresponse.
  destruct (engine_events c w) as (events & Htrace & Hconsole & _).
  assert (Hsame : console_messages (trace (engine c w).2)
                  = console_messages (trace w)).
  { by rewrite Htrace, console_messages_app, Hconsole, app_nil_r. }
  assert (Hhandled : ∀ t error w',
             engine c w = (Throw t, w') →
             validation_kind t = Some error →
             requestMaker.exec c w = default_outcome error w').
  { intros t error w' Hengine Hkind.
    rewrite exec_run, Hengine.
    destruct t as [e|e|?]; simpl in Hkind; [| |done];
      injection Hkind as <-.
    - rewrite Hrequest. apply (defaultHandleValidationError_run (inl e)).
    - rewrite Hresponse. apply (defaultHandleValidationError_run (inr e)). }
  split_and!.
  - intros v w' Hengine. by rewrite exec_run, Hengine.
  - intros reason w' Hengine. by rewrite exec_run, Hengine.
  - intros t error w' Hengine Hkind Hnone.
    rewrite (Hhandled _ _ _ Hengine Hkind). unfold default_outcome.
    rewrite Hnone.
    destruct t as [e|e|?]; simpl in Hkind; [| |done];
      by injection Hkind as <-.
  - intros t error w' v Hengine Hkind Hsome.
    rewrite (Hhandled _ _ _ Hengine Hkind). unfold default_outcome.
    by rewrite Hsome.
  - destruct (engine c w) as [[v|t] w'] eqn:Hengine; simpl in *.
    + rewrite exec_run, Hengine. simpl. rewrite Hsame. lia.
    + destruct (validation_kind t) as [error|] eqn:Hkind.
      * rewrite (Hhandled _ _ _ eq_refl Hkind). unfold default_outcome.
        destruct (unserializable error w'); simpl.
        -- rewrite Hsame. lia.
        -- rewrite console_messages_app, length_app, Hsame. simpl. lia.
      * rewrite exec_run, Hengine. destruct t; [done|done|]. simpl.
        rewrite Hsame. lia.
Qed.

End Collaborators.

(** ** How configuration calls combine *)

Section Configuration.
Context `{platform : Platform}.

Lemma string_app_assoc (a b c : string) : (a +:+ b) +:+ c = a +:+ (b +:+ c).
Proof.
  induction a as [|x a IH]; [done|].
  change (String x ((a +:+ b) +:+ c) = String x (a +:+ (b +:+ c))).
  by rewrite IH.
Qed.

Lemma string_length_app (a b : string) :
  String.length (a +:+ b) = String.length a + String.length b.
Proof.
  induction a as [|x a IH]; [done|].
  change (S (String.length (a +:+ b)) = S (String.length a + String.length b)).
  by rewrite IH.
Qed.

Lemma string_prefix_app (a b : string) : String.prefix a (a +:+ b) = true.
Proof.
  induction a as [|x a IH]; [by destruct b|].
  change (match Ascii.ascii_dec x x with
          | left _ => String.prefix a (a +:+ b)
          | right _ => false
          end = true).
  by destruct (Ascii.ascii_dec x x).
Qed.

Lemma run_steps_run xs : ∀ (b : World → Closure * World) x (w : World),
  run_steps (xs ++ [x]) b w
  = run_step x (run_steps xs b w).1 (run_steps xs b w).2.
Proof.
  intros b x w. unfold run_steps. rewrite fold_left_app. simpl.
  apply chain_run.
Qed.

Lemma run_calls_snoc ks k (b : World → Closure * World) (w : World) :
  run_calls (ks ++ [k]) b w
  = run_call k (run_calls ks b w).1 (run_calls ks b w).2.
Proof.
  unfold run_calls. rewrite fold_left_app. simpl. apply chain_run.
Qed.

(** X5. Configuration is lazy: whatever chain of configuration calls is
    made, with schemas and with payloads that break them, nothing is parsed,
    the transport and the setter are not called, nothing is logged and the
    outside world is as it was; the calls that fill a slot do not touch the
    heap either. *)
Theorem configuration_is_lazy xs c (w : World) :
  let built := run_steps xs (λ w, (c, w)) w in
  trace built.2 = trace w
  ∧ env built.2 = env w
  ∧ ((∀ x, x ∈ xs → ∃ s, x = Fill s) →
     built.2 = w ∧ baseOptions built.1 = baseOptions c).
Proof.
  induction xs as [|x xs IH] using rev_ind; [done|].
  cbv zeta in *. rewrite run_steps_run.
  destruct IH as (Htrace & Henv & Hfill).
  destruct (run_steps xs (λ w, (c, w)) w) as [c' w']. simpl in *.
  split_and!.
  - rewrite <- Htrace. by destruct x as [[?|?|?|?|?]|[?|?|?|?|?|?]].
  - rewrite <- Henv. by destruct x as [[?|?|?|?|?]|[?|?|?|?|?|?]].
  - intros Hall.
    destruct Hfill as [-> <-].
    { intros y Hy. apply Hall. apply elem_of_app. by left. }
    destruct (Hall x) as [s ->]; [apply elem_of_app; right; by left|].
    by destruct s.
Qed.

(** X6. The calls that fill a slot can be made before or after any call
    that configures the description, and in any order among themselves when
    they fill different slots: the builder and the world come out the same.
    For one slot the last call wins. *)
Theorem settings_commute c (w : World) :
  (∀ s k,
     run_steps [Fill s; Configure k] (λ w, (c, w)) w
     = run_steps [Configure k; Fill s] (λ w, (c, w)) w)
  ∧ (∀ s1 s2,
       slot_of s1 ≠ slot_of s2 →
       run_steps [Fill s1; Fill s2] (λ w, (c, w)) w
       = run_steps [Fill s2; Fill s1] (λ w, (c, w)) w)
  ∧ (∀ s1 s2,
       slot_of s1 = slot_of s2 →
       run_steps [Fill s1; Fill s2] (λ w, (c, w)) w
       = run_steps [Fill s2] (λ w, (c, w)) w).
Proof.
  split_and!.
  - by intros [?|?|?|?|?|?] [?|?|?|?|?].
  - by intros [?|?|?|?|?|?] [?|?|?|?|?|?] ?.
  - by intros [?|?|?|?|?|?] [?|?|?|?|?|?] ?.
Qed.

Lemma effect_commute k1 k2 (d : gmap string value) :
  touches k1 ## touches k2 →
  effect k2 (effect k1 d) = effect k1 (effect k2 d).
Proof.
  assert (Hspread : ∀ (o d0 : gmap string value) k v,
             k ∉ dom o → spread (<[k := v]> d0) o = <[k := v]> (spread d0 o)).
  { intros o d0 k v Hk. unfold spread.
    by rewrite insert_union_r by (by apply not_elem_of_dom). }
  assert (Hprop : ∀ (o d0 : gmap string value) k,
             k ∉ dom o → prop (spread d0 o) k = prop d0 k).
  { intros o d0 k Hk. unfold prop, spread.
    by rewrite lookup_union_r by (by apply not_elem_of_dom). }
  destruct k1 as [p1|m1|o1|q1|b1], k2 as [p2|m2|o2|q2|b2];
    simpl; intros Hdisjoint;
    try (by apply disjoint_singleton_l, not_elem_of_singleton in Hdisjoint);
    try (by rewrite ?(prop_insert_ne _ _ "url") by done;
         apply insert_insert_ne).
  - apply disjoint_singleton_l in Hdisjoint.
    by rewrite Hspread, Hprop.
  - apply disjoint_singleton_l in Hdisjoint. by rewrite Hspread.
  - apply disjoint_singleton_r in Hdisjoint.
    by rewrite Hspread, Hprop.
  - apply disjoint_singleton_r in Hdisjoint. by rewrite Hspread.
  - unfold spread. rewrite !(assoc_L (∪)). f_equal.
    apply map_union_comm. by apply map_disjoint_dom.
  - apply disjoint_singleton_r in Hdisjoint. by rewrite Hspread.
  - apply disjoint_singleton_r in Hdisjoint. by rewrite Hspread.
  - apply disjoint_singleton_l in Hdisjoint. by rewrite Hspread.
  - apply disjoint_singleton_l in Hdisjoint. by rewrite Hspread.
Qed.

(** X7. Two calls that assign different keys of the description can be made
    in either order; two calls that assign the same single key, [method],
    [query] or [body], leave what the second alone would leave. *)
Theorem description_calls_reorder c (w : World) :
  allocated c w →
  (∀ k1 k2,
     touches k1 ## touches k2 →
     let one := run_calls [k1; k2] (λ w, (c, w)) w in
     let other := run_calls [k2; k1] (λ w, (c, w)) w in
     description one.1 one.2 = description other.1 other.2)
  ∧ (∀ k1 k2,
       match k1, k2 with
       | Method _, Method _ | Query _, Query _ | Body _, Body _ => True
       | _, _ => False
       end →
       let both := run_calls [k1; k2] (λ w, (c, w)) w in
       let last := run_calls [k2] (λ w, (c, w)) w in
       description both.1 both.2 = description last.1 last.2).
Proof.
  intros Halloc. split.
  - intros k1 k2 Hdisjoint one other. subst one other.
    destruct (run_calls_effect [k1; k2] (λ w, (c, w)) w Halloc) as [_ ->].
    destruct (run_calls_effect [k2; k1] (λ w, (c, w)) w Halloc) as [_ ->].
    simpl. by apply effect_commute.
  - intros k1 k2 Hsame both last. subst both last.
    destruct (run_calls_effect [k1; k2] (λ w, (c, w)) w Halloc) as [_ ->].
    destruct (run_calls_effect [k2] (λ w, (c, w)) w Halloc) as [_ ->].
    destruct k1, k2; try done; simpl; apply insert_insert_eq.
Qed.

(** X8. Two [options] calls amount to one call with the merge of their
    arguments, the later argument winning; [options] with an empty object,
    or a repeated [options] call, changes nothing in the description. *)
Theorem options_compose c (w : World) :
  allocated c w →
  (∀ o1 o2,
     let twice := run_calls [Options o1; Options o2] (λ w, (c, w)) w in
     let once := run_calls [Options (spread o1 o2)] (λ w, (c, w)) w in
     description twice.1 twice.2 = description once.1 once.2)
  ∧ (let called := run_calls [Options ∅] (λ w, (c, w)) w in
     description called.1 called.2 = description c w)
  ∧ (∀ o,
       let twice := run_calls [Options o; Options o] (λ w, (c, w)) w in
       let once := run_calls [Options o] (λ w, (c, w)) w in
       description twice.1 twice.2 = description once.1 once.2).
Proof.
  intros Halloc. split_and!.
  - intros o1 o2 twice once. subst twice once.
    destruct (run_calls_effect [Options o1; Options o2] (λ w, (c, w)) w Halloc)
      as [_ ->].
    destruct (run_calls_effect [Options (spread o1 o2)] (λ w, (c, w)) w Halloc)
      as [_ ->].
    simpl. unfold spread. by rewrite (assoc_L (∪)).
  - intros called. subst called.
    destruct (run_calls_effect [Options ∅] (λ w, (c, w)) w Halloc) as [_ ->].
    simpl. unfold spread. by rewrite (left_id_L ∅ (∪)).
  - intros o twice once. subst twice once.
    destruct (run_calls_effect [Options o; Options o] (λ w, (c, w)) w Halloc)
      as [_ ->].
    destruct (run_calls_effect [Options o] (λ w, (c, w)) w Halloc) as [_ ->].
    simpl. unfold spread. by rewrite (assoc_L (∪)), (idemp_L (∪)).
Qed.

(** X9. A path segment that contains a slash is the same as the two
    segments around it concatenated one after the other; each [concatPath]
    keeps the url it finds as a prefix and makes it longer by the segment
    and one slash, so repeating a call repeats the segment; on a description
    whose url is [undefined] (as after [options({ url: undefined })]) the
    new url starts with ["undefined/"]. *)
Theorem path_segments c (w : World) :
  allocated c w →
  (∀ s1 s2,
     let joint := run_calls [ConcatPath (s1 +:+ "/" +:+ s2)] (λ w, (c, w)) w in
     let apart := run_calls [ConcatPath s1; ConcatPath s2] (λ w, (c, w)) w in
     description joint.1 joint.2 = description apart.1 apart.2)
  ∧ (∀ url segment,
       prop (description c w) "url" = VString url →
       let called := requestMaker.concatPath segment c w in
       ∃ url',
         prop (description called.1 called.2) "url" = VString url'
         ∧ String.prefix url url' = true
         ∧ String.length url'
           = String.length url + 1 + String.length segment)
  ∧ (∀ segment,
       prop (description c w) "url" = VUndefined →
       let called := requestMaker.concatPath segment c w in
       prop (description called.1 called.2) "url"
       = VString ("undefined/" +:+ segment)).
Proof.
  intros Halloc. split_and!.
  - intros s1 s2 joint apart. subst joint apart.
    destruct (run_calls_effect [ConcatPath (s1 +:+ "/" +:+ s2)]
                (λ w, (c, w)) w Halloc) as [_ ->].
    destruct (run_calls_effect [ConcatPath s1; ConcatPath s2]
                (λ w, (c, w)) w Halloc) as [_ ->].
    simpl. rewrite prop_insert, insert_insert_eq. simpl.
    by rewrite string_app_assoc.
  - intros url segment Hurl called.
    destruct (concatPath_run segment c w url Halloc Hurl) as (_ & _ & Hnew).
    eexists. split; [exact Hnew|]. split.
    + apply string_prefix_app.
    + rewrite !string_length_app. simpl. lia.
  - intros segment Hmissing called.
    destruct (run_call_effect (ConcatPath segment) c w Halloc)
      as (_ & Hdesc & _).
    change (run_call (ConcatPath segment) c w) with called in Hdesc.
    rewrite Hdesc. simpl. rewrite prop_insert.
    by rewrite Hmissing.
Qed.

Lemma run_calls_apart ks : ∀ c (w : World) l,
  allocated c w →
  l < length (heap w) →
  l ≠ baseOptions c →
  let built := run_calls ks (λ w, (c, w)) w in
  read l built.2 = read l w
  ∧ allocated built.1 built.2
  ∧ l < length (heap built.2)
  ∧ l ≠ baseOptions built.1.
Proof.
  induction ks as [|k ks IH] using rev_ind; intros c w l Halloc Hl Hne.
  - done.
  - cbv zeta. rewrite run_calls_snoc.
    destruct (IH c w l Halloc Hl Hne) as (Hread & Halloc' & Hl' & Hne').
    destruct (run_calls ks (λ w, (c, w)) w) as [c' w']. simpl in *.
    destruct (run_call_effect k c' w' Halloc')
      as (Halloc'' & _ & Hothers & Hkind).
    rewrite <- Hread. split_and!; [by apply Hothers|done| |].
    + clear Hkind Hothers.
      destruct k; simpl; unfold write; simpl;
        rewrite ?length_alter, ?length_app; simpl; lia.
    + clear Hkind Hothers. destruct k; simpl; lia.
Qed.

(** X10. Two builders share nothing: making the second leaves the
    description of the first as it was, and no chain of configuration calls
    on one, nor a run of one, changes the description of the other. *)
Theorem builders_are_independent host1 host2 (w : World) ks :
  let first := validatedRequestMaker host1 w in
  let second := validatedRequestMaker host2 first.2 in
  baseOptions first.1 ≠ baseOptions second.1
  ∧ description first.1 second.2 = description first.1 first.2
  ∧ description second.1
      (run_calls ks (λ w, (first.1, w)) second.2).2
    = description second.1 second.2
  ∧ description first.1
      (run_calls ks (λ w, (second.1, w)) second.2).2
    = description first.1 second.2
  ∧ description second.1 (engine first.1 second.2).2
    = description second.1 second.2
  ∧ description first.1 (engine second.1 second.2).2
    = description first.1 second.2.
Proof.
  intros first second.
  destruct (validatedRequestMaker_run host1 w) as (Halloc1 & Hbase1 & _).
  destruct (validatedRequestMaker_run host2 first.2) as (Halloc2 & Hbase2 & _).
  fold first in Halloc1, Hbase1. fold second in Halloc2, Hbase2.
  assert (Hgrow : length (heap first.2) = S (length (heap w))).
  { subst first. simpl. rewrite length_app. simpl. lia. }
  assert (Hgrow2 : length (heap second.2) = S (length (heap first.2))).
  { subst second. simpl. rewrite length_app. simpl. lia. }
  assert (Hne : baseOptions first.1 ≠ baseOptions second.1) by lia.
  assert (Halloc1' : allocated first.1 second.2).
  { unfold allocated in *. lia. }
  split_and!.
  - done.
  - unfold description.
    change second.2
      with (with_heap (heap first.2 ++ [{[ "url" := VString host2 ]}])
              first.2).
    apply read_after_alloc. unfold allocated in Halloc1. lia.
  - unfold description.
    by destruct (run_calls_apart ks first.1 second.2 (baseOptions second.1)
                   Halloc1' Halloc2 (not_eq_sym Hne)).
  - unfold description.
    by destruct (run_calls_apart ks second.1 second.2 (baseOptions first.1)
                   Halloc2 Halloc1' Hne).
  - by apply engine_reads.
  - by apply engine_reads.
Qed.

End Configuration.

Section CollaboratorsWitness.

(** A setter that rejects stops [exec] before anything is parsed or sent,
    although query and body are invalid; a transport that refuses the
    connection is called once and its error comes out of [exec] as it is. *)
Lemma collaborator_rejections_witness :
  (let c := (@Cases.unauthorized Scenarios.start).1 in
   let w := (@Cases.unauthorized Scenarios.start).2 in
   (@requestMaker.exec Fixtures.server c w).1
     = Throw (ThrowOther (VString "no token"))
   ∧ parsed_values (trace (@requestMaker.exec Fixtures.server c w).2) = []
   ∧ transport_calls (trace (@requestMaker.exec Fixtures.server c w).2) = [])
  ∧ (let c := (Cases.unreachable (@initial Cases.offline 0)).1 in
     let w := (Cases.unreachable (@initial Cases.offline 0)).2 in
     (@requestMaker.exec Cases.offline c w).1
       = Throw (ThrowOther (VString "ECONNREFUSED"))
     ∧ length (transport_calls (trace (@requestMaker.exec Cases.offline c w).2))
       = 1
     ∧ env (@requestMaker.exec Cases.offline c w).2 = 1).
Proof.
  split.
  - intros c w.
    destruct (@collaborator_rejections Fixtures.server c w) as [Hsetter _].
    destruct (Hsetter (ThrowOther (VString "no token")) _ eq_refl)
      as (_ & Hexec & _ & Hparsed & Hcalls).
    rewrite Hexec. split_and!; [reflexivity|exact Hparsed|exact Hcalls].
  - intros c w.
    destruct (@collaborator_rejections Cases.offline c w) as [_ Htransport].
    destruct (Htransport ∅ w (VObject [("name", VString "n")]) VUndefined
                (ThrowOther (VString "ECONNREFUSED")) 1
                eq_refl eq_refl eq_refl eq_refl)
      as (w' & _ & Hexec & Henv & Hcalls & _).
    rewrite Hexec. unfold dispatch, throw. cbn [fst snd].
    split_and!; [reflexivity|by rewrite Hcalls|exact Henv].
Defined.

End CollaboratorsWitness.

Section ExtrasWitness.
#[local] Existing Instance Fixtures.server.


(** A new builder, nothing configured: the transport still receives the
    keys [params] and [data], both [undefined], beside the url. *)
Lemma transport_receives_witness :
  let c := Scenarios.made.1 in
  let w := Scenarios.made.2 in
  ∃ sent,
    transport_calls (trace (engine c w).2) = [sent]
    ∧ dom sent = {[ "params"; "data" ]} ∪ {[ "url" ]}
    ∧ sent !! "params" = Some VUndefined
    ∧ sent !! "data" = Some VUndefined
    ∧ sent !! "url" = Some (VString "http://h").
Proof.
  intros c w. eexists. split; [reflexivity|].
  destruct (transport_receives c w ∅ w _ eq_refl eq_refl)
    as (Hdom & Hothers & _ & _ & Hparams & Hdata).
  split_and!.
  - rewrite Hdom. f_equal.
  - by apply Hparams.
  - by apply Hdata.
  - by rewrite Hothers.
Defined.

(** The builder whose query is invalid, with its default handlers: [exec]
    raises what the run raised and one diagnostic is written. The builder
    whose invalid query holds a BigInt: [exec] raises the [TypeError] and
    nothing is written. *)
Lemma default_handlers_outcome_witness :
  (let c := (Scenarios.both_invalid Scenarios.start).1 in
   let w := (Scenarios.both_invalid Scenarios.start).2 in
   (requestMaker.exec c w).1 = (engine c w).1
   ∧ length (console_messages (trace (requestMaker.exec c w).2)) = 1)
  ∧ (let c := (Cases.unprintable Scenarios.start).1 in
     let w := (Cases.unprintable Scenarios.start).2 in
     (requestMaker.exec c w).1 = Throw (ThrowOther (VString "TypeError"))
     ∧ length (console_messages (trace (requestMaker.exec c w).2)) = 0).
Proof.
  split.
  - intros c w.
    destruct (default_handlers_outcome c w eq_refl eq_refl)
      as (_ & _ & Hlogged & _ & Hconsole).
    split; [|exact Hconsole].
    by erewrite Hlogged by reflexivity.
  - intros c w.
    destruct (default_handlers_outcome c w eq_refl eq_refl)
      as (_ & _ & _ & Hmasked & Hconsole).
    split; [|exact Hconsole].
    by erewrite (Hmasked _ _ _ Cases.bigint_query) by reflexivity.
Defined.

(** Schemas and payloads that break them, set in a chain on a new builder:
    the trace stays empty. *)
Lemma configuration_is_lazy_witness :
  let built :=
    run_steps Cases.misconfigured (λ w, (Scenarios.made.1, w))
      Scenarios.made.2 in
  trace built.2 = [] ∧ env built.2 = 0
  ∧ prop (description built.1 built.2) "params" = Scenarios.bad_query.
Proof.
  intros built.
  destruct (configuration_is_lazy Cases.misconfigured Scenarios.made.1
              Scenarios.made.2) as (Htrace & Henv & _).
  split_and!; [exact Htrace|exact Henv|reflexivity].
Defined.

(** A query schema set before or after the query, and before or after the
    body schema: the same builder. *)
Lemma settings_commute_witness :
  let c := Scenarios.made.1 in
  let w := Scenarios.made.2 in
  run_steps [Fill (SetQuerySchema Fixtures.name_string);
             Configure (Query Scenarios.good_query)] (λ w, (c, w)) w
  = run_steps [Configure (Query Scenarios.good_query);
               Fill (SetQuerySchema Fixtures.name_string)] (λ w, (c, w)) w
  ∧ run_steps [Fill (SetQuerySchema Fixtures.name_string);
               Fill (SetBodySchema Fixtures.age_number)] (λ w, (c, w)) w
    = run_steps [Fill (SetBodySchema Fixtures.age_number);
                 Fill (SetQuerySchema Fixtures.name_string)] (λ w, (c, w)) w.
Proof.
  intros c w.
  destruct (settings_commute c w) as (Hcall & Hslots & _).
  split; [apply Hcall|by apply Hslots].
Defined.

(** [options({ timeout: 5 })] and [concatPath("a")] in either order. *)
Lemma description_calls_reorder_witness :
  let c := Scenarios.made.1 in
  let w := Scenarios.made.2 in
  let one := run_calls [Options Scenarios.with_timeout; ConcatPath "a"]
               (λ w, (c, w)) w in
  let other := run_calls [ConcatPath "a"; Options Scenarios.with_timeout]
                 (λ w, (c, w)) w in
  allocated c w
  ∧ description one.1 one.2 = description other.1 other.2
  ∧ description one.1 one.2
    = {[ "url" := VString "http://h/a"; "timeout" := VNumber 5 ]}.
Proof.
  intros c w one other.
  assert (Halloc : allocated c w) by (unfold allocated; simpl; lia).
  destruct (description_calls_reorder c w Halloc) as [Hreorder _].
  split_and!; [exact Halloc| |by vm_compute].
  apply (Hreorder (Options Scenarios.with_timeout) (ConcatPath "a")).
  simpl. unfold Scenarios.with_timeout. rewrite dom_singleton_L.
  by apply disjoint_singleton_l, not_elem_of_singleton.
Defined.

(** Two [options] calls that both give headers: the later headers object
    replaces the earlier one whole. *)
Lemma options_compose_witness :
  let c := Scenarios.made.1 in
  let w := Scenarios.made.2 in
  let o1 : gmap string value :=
    {[ "headers" := VObject [("a", VNumber 1)]; "timeout" := VNumber 5 ]} in
  let o2 : gmap string value :=
    {[ "headers" := VObject [("b", VNumber 2)] ]} in
  let twice := run_calls [Options o1; Options o2] (λ w, (c, w)) w in
  allocated c w
  ∧ description twice.1 twice.2
    = {[ "url" := VString "http://h";
         "headers" := VObject [("b", VNumber 2)];
         "timeout" := VNumber 5 ]}.
Proof.
  intros c w o1 o2 twice.
  assert (Halloc : allocated c w) by (unfold allocated; simpl; lia).
  split; [exact Halloc|].
  destruct (options_compose c w Halloc) as (Hmerge & _).
  etrans; [apply Hmerge|]. by vm_compute.
Defined.

(** ["v1/users"] in one call or in two. *)
Lemma path_segments_witness :
  let c := Scenarios.made.1 in
  let w := Scenarios.made.2 in
  let joint := run_calls [ConcatPath "v1/users"] (λ w, (c, w)) w in
  let apart := run_calls [ConcatPath "v1"; ConcatPath "users"]
                 (λ w, (c, w)) w in
  let reset := requestMaker.options {[ "url" := VUndefined ]} c w in
  let called := requestMaker.concatPath "a" reset.1 reset.2 in
  allocated c w
  ∧ description joint.1 joint.2 = description apart.1 apart.2
  ∧ prop (description apart.1 apart.2) "url" = VString "http://h/v1/users"
  ∧ prop (description called.1 called.2) "url" = VString "undefined/a".
Proof.
  intros c w joint apart reset called.
  assert (Halloc : allocated c w) by (unfold allocated; simpl; lia).
  assert (Hreset : allocated reset.1 reset.2)
    by (unfold allocated; simpl; lia).
  destruct (path_segments c w Halloc) as (Hslash & _).
  destruct (path_segments reset.1 reset.2 Hreset) as (_ & _ & Hundefined).
  split_and!; [exact Halloc|apply (Hslash "v1" "users")|reflexivity|].
  by apply Hundefined.
Defined.

End ExtrasWitness.

(** ** Error dispatch in [exec] *)

Section Dispatch.
Context `{platform : Platform}.

(** C2. [exec] catches the two validation-error kinds and nothing else: a
    request-validation error raised by the run goes to the handler held in
    the request slot, a response-validation error to the one held in the
    response slot, and [exec] ends as that handler ends, with its value or
    with what it raises; a successful result and any other error,
    a transport rejection included, come out of [exec] as they are. The
    slots hold what the last [handleRequestValidationError] and
    [handleResponseValidationError] calls put there, each independently of
    the other, and a new builder holds the default handlers. A default
    handler writes one diagnostic to the console and raises the error it was
    given when the body, the query and the issues can be serialized. When
    one of them cannot, it does neither: [JSON.stringify] raises inside the
    template literal, nothing is logged and the [TypeError] replaces the
    validation error; so it is for a schema-rejected query
    [{ name: 10n }] on a new builder, where [exec] ends with the
    [TypeError]. *)
Theorem exec_dispatch c (w : World) :
  (∀ e w', engine c w = (Throw (ThrowRequestValidationError e), w') →
           requestMaker.exec c w = requestValidationErrorHandler c e w')
  ∧ (∀ e w', engine c w = (Throw (ThrowResponseValidationError e), w') →
             requestMaker.exec c w = responseValidationErrorHandler c e w')
  ∧ (∀ reason w', engine c w = (Throw (ThrowOther reason), w') →
                  requestMaker.exec c w = (Throw (ThrowOther reason), w'))
  ∧ (∀ v w', engine c w = (Ok v, w') → requestMaker.exec c w = (Ok v, w'))
  ∧ (∀ asyncOptions w1 params data reason e,
       resolve_asyncOptions (asyncOptionsSetterMethod c) w
         = (Ok asyncOptions, w1) →
       let final := spread (description c w) asyncOptions in
       request_outcome (length (heap w)) (prop final "params") (querySchema c)
         = Ok params →
       request_outcome (length (heap w)) (prop final "data") (bodySchema c)
         = Ok data →
       axios (<["data" := data]> (<["params" := params]> final)) (env w1)
         = (Throw (ThrowOther reason), e) →
       (requestMaker.exec c w).1 = Throw (ThrowOther reason))
  ∧ (∀ handler,
       let c' := (requestMaker.handleRequestValidationError handler c w).1 in
       requestValidationErrorHandler c' = handler
       ∧ responseValidationErrorHandler c' = responseValidationErrorHandler c)
  ∧ (∀ handler,
       let c' := (requestMaker.handleResponseValidationError handler c w).1 in
       responseValidationErrorHandler c' = handler
       ∧ requestValidationErrorHandler c' = requestValidationErrorHandler c)
  ∧ (∀ host,
       let c0 := (validatedRequestMaker host w).1 in
       requestValidationErrorHandler c0 = defaultRequestValidationHandler
       ∧ responseValidationErrorHandler c0 = defaultResponseValidationHandler)
  ∧ (∀ e,
       unserializable (inl e) w = None →
       defaultRequestValidationHandler e w =
       (Throw (ThrowRequestValidationError e),
        with_event (EvConsoleError (report (inl e) w)) w))
  ∧ (∀ e,
       unserializable (inr e) w = None →
       defaultResponseValidationHandler e w =
       (Throw (ThrowResponseValidationError e),
        with_event (EvConsoleError (report (inr e) w)) w))
  ∧ (∀ e v,
       unserializable (inl e) w = Some v →
       defaultRequestValidationHandler e w
       = (Throw (ThrowOther (JSON_TypeError v)), w))
  ∧ (∀ e v,
       unserializable (inr e) w = Some v →
       defaultResponseValidationHandler e w
       = (Throw (ThrowOther (JSON_TypeError v)), w))
  ∧ (∀ host (w0 : World),
       let query := VObject [("name", VBigInt 10)] in
       let built := (validatedRequestMaker host
                     |> requestMaker.querySchema Fixtures.name_string
                     |> requestMaker.query query) w0 in
       ∃ e w',
         engine built.1 built.2 = (Throw (ThrowRequestValidationError e), w')
         ∧ request (request_metadata e) = query
         ∧ requestMaker.exec built.1 built.2
           = (Throw (ThrowOther (JSON_TypeError query)), w')
         ∧ console_messages (trace w') = console_messages (trace w0)).
Proof.
  split_and!; try done.
  - intros e w' Hengine. by rewrite exec_run, Hengine.
  - intros e w' Hengine. by rewrite exec_run, Hengine.
  - intros reason w' Hengine. by rewrite exec_run, Hengine.
  - intros v w' Hengine. by rewrite exec_run, Hengine.
  - intros asyncOptions w1 params data reason e Hresolve final
      Hquery Hbody Htransport.
    rewrite exec_run, (engine_run _ _ _ _ Hresolve). cbv zeta.
    fold final. by rewrite Hquery, Hbody, Htransport.
  - intros e Hnone. unfold defaultRequestValidationHandler.
    rewrite defaultHandleValidationError_run. unfold default_outcome.
    by rewrite Hnone.
  - intros e Hnone. unfold defaultResponseValidationHandler.
    rewrite defaultHandleValidationError_run. unfold default_outcome.
    by rewrite Hnone.
  - intros e v Hsome. unfold defaultRequestValidationHandler.
    rewrite defaultHandleValidationError_run. unfold default_outcome.
    by rewrite Hsome.
  - intros e v Hsome. unfold defaultResponseValidationHandler.
    rewrite defaultHandleValidationError_run. unfold default_outcome.
    by rewrite Hsome.
  - intros host w0 query built.
    assert (Hsetter : asyncOptionsSetterMethod built.1 = None) by done.
    assert (Hquery : querySchema built.1 = Some Fixtures.name_string) by done.
    assert (Hrequest : requestValidationErrorHandler built.1
                       = defaultRequestValidationHandler) by done.
    assert (Htrace : trace built.2 = trace w0) by done.
    assert (Hdesc : description built.1 built.2
                    = <["params" := query]> {[ "url" := VString host ]}).
    { unfold built. rewrite !chain_run.
      destruct (validatedRequestMaker_run host w0) as (Halloc & _ & Hmade).
      cbn [requestMaker.querySchema requestMaker.query fst snd].
      unfold description in *. cbn [baseOptions set_querySchema].
      rewrite read_write by exact Halloc. by rewrite Hmade. }
    clearbody built. destruct built as [c0 w1]. simpl in *.
    assert (Hresolve : resolve_asyncOptions (asyncOptionsSetterMethod c0) w1
                       = (Ok ∅, w1)) by (by rewrite Hsetter).
    assert (Hfinal : spread (description c0 w1) ∅
                     = <["params" := query]> {[ "url" := VString host ]}).
    { unfold spread. by rewrite (left_id_L ∅ (∪)). }
    pose proof (engine_query_rejected c0 w1 ∅ w1 Fixtures.name_string
                  {| issues := [Fixtures.invalid_type [VString "name"]] |}
                  Hresolve Hquery) as Hengine.
    rewrite Hfinal in Hengine. specialize (Hengine eq_refl).
    eexists _, _. split; [exact Hengine|]. split; [reflexivity|].
    split.
    + rewrite exec_run, Hengine, Hrequest.
      unfold defaultRequestValidationHandler.
      rewrite defaultHandleValidationError_run. unfold default_outcome.
      by erewrite (unserializable_last _ w1) by reflexivity.
    + simpl. rewrite console_messages_app. simpl.
      by rewrite app_nil_r, Htrace.
Qed.

End Dispatch.

Section DispatchWitness.
#[local] Existing Instance Fixtures.server.

(** With a handler that swallows request-validation errors, [exec] on the
    builder whose query is invalid resolves to the handler's value. With the
    default handlers and a query that holds a BigInt, the run raises the
    request-validation error and [exec] ends with the [TypeError], nothing
    logged. *)
Lemma exec_dispatch_witness :
  (let c := (Scenarios.both_invalid_swallowed Scenarios.start).1 in
   let w := (Scenarios.both_invalid_swallowed Scenarios.start).2 in
   ∃ e w',
     engine c w = (Throw (ThrowRequestValidationError e), w')
     ∧ requestMaker.exec c w = (Ok Scenarios.fallback, w')
     ∧ request (request_metadata e) = Scenarios.bad_query)
  ∧ (let c := (Cases.unprintable Scenarios.start).1 in
     let w := (Cases.unprintable Scenarios.start).2 in
     ∃ e w',
       engine c w = (Throw (ThrowRequestValidationError e), w')
       ∧ request (request_metadata e) = Cases.bigint_query
       ∧ unserializable (inl e) w' = Some Cases.bigint_query
       ∧ requestMaker.exec c w = (Throw (ThrowOther (VString "TypeError")), w')
       ∧ console_messages (trace w') = []).
Proof.
  split.
  - intros c w.
    destruct (exec_dispatch c w) as (Hrequest & _).
    eexists _, _. split_and!.
    + reflexivity.
    + etrans; [apply Hrequest; reflexivity|]. reflexivity.
    + reflexivity.
  - intros c w.
    destruct (exec_dispatch c w) as (Hrequest & _).
    eexists _, _. split; [reflexivity|]. split; [reflexivity|].
    split; [reflexivity|]. split; [|reflexivity].
    etrans; [apply Hrequest; reflexivity|].
    match goal with
    | |- requestValidationErrorHandler _ ?e ?w' = _ =>
        destruct (exec_dispatch c w')
          as (_ & _ & _ & _ & _ & _ & _ & _ & _ & _ & Hmasked & _);
        exact (Hmasked e Cases.bigint_query eq_refl)
    end.
Defined.

End DispatchWitness.
